(** * The dashboard state store of [useDashboard]

    A shallow embedding of the React hook [useDashboard]
    (hooks/useDashboard.ts): the dashboard selection state, the linear
    transaction log with its position index, the callback registry, the
    named snapshots (in memory and in [localStorage]) and the operations
    the hook returns.

    Modelling conventions.

    - A JavaScript object with string fields ([DashboardState] and
      [Partial<DashboardState>]) is a finite map from field names to
      strings; [{...a}] copies, [Object.assign(a, b)] is [b ∪ a] (the
      union of stdpp is left-biased, so the fields of [b] win).
    - The [Map] of callbacks keeps insertion order, so it is an
      association list with [Map.set] and [Map.delete] written out.
    - The values held by [useState] are the fields of one record,
      [Store].  The browser's [localStorage] and what an observer can see
      of callback invocations and console output (a [trace]) are part of
      the same record, since the operations read and write them.
    - An operation ([updateDashboardState], [undo], ...) is a call made
      from the latest render: the values its closure captured are those
      of the store it acts on, and the state updates it queues are
      committed before the next operation runs.  Sequencing with [;;],
      [times] and [run] is sequencing of such calls, a render between
      them.  Calls of [updateDashboardState] made by one event handler,
      all through the closure of the same render, are
      [updateInOneHandler].
    - Exceptions are explicit: an operation is a function from the store
      to a completion ([Normal] or [Throw]) and the store it leaves.
    - [Date.now()] and [Math.random()] are inputs of the call ([Clock]). *)

From stdpp Require Import gmap strings list fin_maps pretty.
From Stdlib Require Import ZArith Lia.

Local Open Scope Z_scope.

(** ** Data model *)

Abbreviation DashboardState := (gmap string string) (only parsing).

(** [initialDashboardState] *)
Definition initialDashboardState : DashboardState :=
  <["selectedTimeRange" := "1Y"]>
  (<["selectedRevenueType" := "subscription"]>
  (<["selectedDepartment" := "all"]>
  (<["selectedMetric" := "revenue"]>
  (<["selectedIndustry" := "all"]>
  (<["selectedRegion" := "all"]> ∅))))).

(** [interface StateTransaction] *)
Record StateTransaction := mkTransaction {
  id : string;
  timestamp : Z;
  updates : gmap string string;
  source : option string
}.

(** [type FilterDependency] *)
Record FilterDependency := mkDependency {
  trigger : string;
  reset : list string
}.

Definition filterDependencies : list FilterDependency :=
  [ mkDependency "selectedRegion" ["selectedIndustry"];
    mkDependency "selectedDepartment" ["selectedMetric"] ].

(** What a JavaScript exception carries, as far as the store can tell. *)
Inductive exn :=
  | TypeError
  | SyntaxError
  | QuotaExceededError
  | Raised (msg : string).

Inductive completion (A : Type) : Type :=
  | Normal (a : A)
  | Throw (e : exn).
Arguments Normal {A} a.
Arguments Throw {A} e.

(** [type DashboardCallback]: a listener is observed through whether it
    returns or throws on [(state, previousState)]. *)
Definition DashboardCallback : Type :=
  gmap string string → gmap string string → completion unit.

(** What an observer outside the store sees. *)
Inductive event :=
  | Invoked (cb_id : string) (state previousState : gmap string string)
  | ConsoleError (e : exn)
  | ConsoleWarn (e : exn).

(** A text held by [localStorage], seen through [if (text)] and
    [JSON.parse(text)]: [EmptyText] is the empty text, which is falsy;
    [Json state] is a text that parses to the state object [state];
    [Malformed raw] is a text [raw] on which [JSON.parse] throws
    ([rejected_by_JSON_parse] recognises such texts).  A text that is
    well-formed JSON for a value that is not a state object ([null],
    [42], [[]]) has no representation here. *)
Inductive item :=
  | EmptyText
  | Json (state : gmap string string)
  | Malformed (raw : string).

(** [JSON.stringify(dashboardState)], up to [JSON.parse]. *)
Definition JSON_stringify (state : gmap string string) : item := Json state.

Definition JSON_parse (text : item) : completion (gmap string string) :=
  match text with
  | Json state => Normal state
  | EmptyText | Malformed _ => Throw SyntaxError
  end.

Definition truthy (text : item) : bool :=
  match text with EmptyText => false | _ => true end.

(** The [useState] cells of the hook that the history, callback and
    snapshot operations touch, with the environment they act on. *)
Record Store := mkStore {
  dashboardState : gmap string string;
  callbacks : list (string * DashboardCallback);
  stateHistory : list StateTransaction;
  currentHistoryIndex : Z;
  savedStates : gmap string (gmap string string);
  localStorage : gmap string item;
  storageFull : bool;
  trace : list event
}.

(** [Date.now()] (read twice) and the random suffix of an identifier. *)
Record Clock := mkClock {
  now_id : Z;
  random_suffix : string;
  now_ts : Z
}.

(** ** Setters, one per [useState] cell *)

Definition setDashboardState (v : gmap string string) (st : Store) : Store :=
  mkStore v (callbacks st) (stateHistory st) (currentHistoryIndex st)
          (savedStates st) (localStorage st) (storageFull st) (trace st).

Definition setCallbacks (f : list (string * DashboardCallback) → list (string * DashboardCallback))
    (st : Store) : Store :=
  mkStore (dashboardState st) (f (callbacks st)) (stateHistory st) (currentHistoryIndex st)
          (savedStates st) (localStorage st) (storageFull st) (trace st).

Definition setStateHistory (f : list StateTransaction → list StateTransaction)
    (st : Store) : Store :=
  mkStore (dashboardState st) (callbacks st) (f (stateHistory st)) (currentHistoryIndex st)
          (savedStates st) (localStorage st) (storageFull st) (trace st).

Definition setCurrentHistoryIndex (f : Z → Z) (st : Store) : Store :=
  mkStore (dashboardState st) (callbacks st) (stateHistory st) (f (currentHistoryIndex st))
          (savedStates st) (localStorage st) (storageFull st) (trace st).

Definition setSavedStates (f : gmap string (gmap string string) → gmap string (gmap string string))
    (st : Store) : Store :=
  mkStore (dashboardState st) (callbacks st) (stateHistory st) (currentHistoryIndex st)
          (f (savedStates st)) (localStorage st) (storageFull st) (trace st).

Definition writeLocalStorage (key : string) (text : item) (st : Store) : Store :=
  mkStore (dashboardState st) (callbacks st) (stateHistory st) (currentHistoryIndex st)
          (savedStates st) (<[key := text]> (localStorage st)) (storageFull st) (trace st).

Definition emit (ev : event) (st : Store) : Store :=
  mkStore (dashboardState st) (callbacks st) (stateHistory st) (currentHistoryIndex st)
          (savedStates st) (localStorage st) (storageFull st) (trace st ++ [ev]).

Definition emitAll (evs : list event) (st : Store) : Store :=
  mkStore (dashboardState st) (callbacks st) (stateHistory st) (currentHistoryIndex st)
          (savedStates st) (localStorage st) (storageFull st) (trace st ++ evs).

(** ** The monad of store operations *)

Definition M (A : Type) : Type := Store → completion A * Store.

Definition ret {A} (a : A) : M A := fun st => (Normal a, st).

Definition bind {A B} (m : M A) (k : A → M B) : M B :=
  fun st =>
    match m st with
    | (Normal a, st') => k a st'
    | (Throw e, st') => (Throw e, st')
    end.

Notation "x <- m ;; k" := (bind m (fun x => k))
  (at level 100, m at next level, right associativity).
Notation "m ;; k" := (bind m (fun _ => k))
  (at level 100, right associativity).

Definition gets {A} (f : Store → A) : M A := fun st => (Normal (f st), st).
Definition modify (f : Store → Store) : M unit := fun st => (Normal tt, f st).
Definition throw {A} (e : exn) : M A := fun st => (Throw e, st).

(** [try { body } catch (error) { handler(error) }]: what [body] did to
    the store before it threw stays done. *)
Definition try_catch {A} (body : M A) (handler : exn → M A) : M A :=
  fun st =>
    match body st with
    | (Normal a, st') => (Normal a, st')
    | (Throw e, st') => handler e st'
    end.

(** [xs.forEach(body)] *)
Fixpoint forEach {A} (xs : list A) (body : A → M unit) : M unit :=
  match xs with
  | [] => ret tt
  | x :: rest => body x ;; forEach rest body
  end.

(** [n] calls of [m] in a row. *)
Fixpoint times (n : nat) (m : M unit) : M unit :=
  match n with
  | O => ret tt
  | S n' => m ;; times n' m
  end.

Definition lift {A} (c : completion A) : M A := fun st => (c, st).

Definition console_error (error : exn) : M unit := modify (emit (ConsoleError error)).
Definition console_warn (error : exn) : M unit := modify (emit (ConsoleWarn error)).

(** ** JavaScript containers *)

(** [arr.slice(0, end)]: a negative [end] counts from the end of the
    array, and [end] is capped at the length. *)
Definition slice0 {A} (end_ : Z) (arr : list A) : list A :=
  if end_ <? 0
  then take (Z.to_nat (Z.max (Z.of_nat (length arr) + end_) 0)) arr
  else take (Z.to_nat end_) arr.

(** [arr[i]] for an integer [i]: [undefined] ([None]) out of range. *)
Definition array_get {A} (arr : list A) (i : Z) : option A :=
  if i <? 0 then None else arr !! Z.to_nat i.

(** [map.set(key, v)] on an insertion-ordered [Map]: an existing key
    keeps its place, a new key goes last. *)
Fixpoint Map_set {V} (key : string) (v : V) (m : list (string * V)) : list (string * V) :=
  match m with
  | [] => [(key, v)]
  | (k, w) :: rest =>
      if decide (k = key) then (k, v) :: rest else (k, w) :: Map_set key v rest
  end.

(** [map.delete(key)] *)
Fixpoint Map_delete {V} (key : string) (m : list (string * V)) : list (string * V) :=
  match m with
  | [] => []
  | (k, w) :: rest =>
      if decide (k = key) then rest else (k, w) :: Map_delete key rest
  end.

(** [Object.keys(obj)].  The order of the keys of a finite map is not the
    insertion order of the object; [resolveDependencies] below does not
    depend on it (see [resolveDependencies_spec]). *)
Definition Object_keys (obj : gmap string string) : list string :=
  (map_to_list obj).*1.

(** [localStorage.setItem(key, text)]: throws when the quota is used up. *)
Definition localStorage_setItem (key : string) (text : item) : M unit :=
  fun st =>
    if storageFull st then (Throw QuotaExceededError, st)
    else (Normal tt, writeLocalStorage key text st).

(** [localStorage.getItem(key)] *)
Definition localStorage_getItem (key : string) : M (option item) :=
  gets (fun st => localStorage st !! key).

Definition storage_key (name : string) : string := "dashboard_state_" +:+ name.

(** ** The operations of the hook *)

(** [generateTransactionId] *)
Definition generateTransactionId (clock : Clock) : string :=
  "tx_" +:+ pretty (now_id clock) +:+ "_" +:+ random_suffix clock.

(** The body of [dependency.reset.forEach(resetKey => ...)]. *)
Definition resetField (finalUpdates : gmap string string) (resetKey : string)
    : gmap string string :=
  if decide (resetKey = "selectedMetric") then <[resetKey := "revenue"]> finalUpdates
  else if decide (resetKey = "selectedIndustry") then <[resetKey := "all"]> finalUpdates
  else finalUpdates.

(** The body of [Object.keys(updates).forEach(key => ...)]. *)
Definition applyDependency (finalUpdates : gmap string string) (key : string)
    : gmap string string :=
  match List.find (fun dep => bool_decide (trigger dep = key)) filterDependencies with
  | Some dependency => foldl resetField finalUpdates (reset dependency)
  | None => finalUpdates
  end.

(** "Apply filter dependencies": [finalUpdates] of [updateDashboardState]. *)
Definition resolveDependencies (updates_ : gmap string string) : gmap string string :=
  foldl applyDependency updates_ (Object_keys updates_).

(** [callback(newState, prev)], observed. *)
Definition call (cb_id : string) (callback : DashboardCallback)
    (newState prev : gmap string string) : M unit :=
  fun st => (callback newState prev, emit (Invoked cb_id newState prev) st).

(** [updateDashboardState(updates, source)] *)
Definition updateDashboardState (updates_ : gmap string string) (source_ : option string)
    (clock : Clock) : M unit :=
  prev <- gets dashboardState ;;
  let newState := prev in
  let finalUpdates := resolveDependencies updates_ in
  let newState := finalUpdates ∪ newState in
  let transaction :=
    mkTransaction (generateTransactionId clock) (now_ts clock) finalUpdates source_ in
  index <- gets currentHistoryIndex ;;
  modify (setStateHistory (fun history => slice0 (index + 1) history ++ [transaction])) ;;
  modify (setCurrentHistoryIndex (fun idx => idx + 1)) ;;
  callbacks_ <- gets callbacks ;;
  forEach callbacks_ (fun entry =>
    try_catch (call entry.1 entry.2 newState prev)
              (fun error => console_error error)) ;;
  modify (setDashboardState newState).

(** [clearData], on the dashboard state (the datasets and the import
    state are not part of this model). *)
Definition clearData : M unit :=
  modify (setDashboardState initialDashboardState).

(** [registerCallback(id, callback)] *)
Definition registerCallback (cb_id : string) (callback : DashboardCallback) : M unit :=
  modify (setCallbacks (fun prev => Map_set cb_id callback prev)).

(** [unregisterCallback(id)] *)
Definition unregisterCallback (cb_id : string) : M unit :=
  modify (setCallbacks (fun prev => Map_delete cb_id prev)).

(** [saveState(name)] *)
Definition saveState (name : string) : M unit :=
  current <- gets dashboardState ;;
  modify (setSavedStates (fun prev => <[name := current]> prev)) ;;
  try_catch (localStorage_setItem (storage_key name) (JSON_stringify current))
            (fun error => console_warn error).

(** [loadState(name)] *)
Definition loadState (name : string) : M bool :=
  memory <- gets savedStates ;;
  match memory !! name with
  | Some memoryState =>
      modify (setDashboardState memoryState) ;;
      ret true
  | None =>
      try_catch
        (savedState <- localStorage_getItem (storage_key name) ;;
         match savedState with
         | Some text =>
             if truthy text then
               parsedState <- lift (JSON_parse text) ;;
               modify (setDashboardState parsedState) ;;
               ret true
             else ret false
         | None => ret false
         end)
        (fun error => console_warn error ;; ret false)
  end.

(** [resetToDefault] *)
Definition resetToDefault (clock : Clock) : M unit :=
  let transaction :=
    mkTransaction (generateTransactionId clock) (now_ts clock)
                  initialDashboardState (Some "reset") in
  modify (setDashboardState initialDashboardState) ;;
  modify (setStateHistory (fun prev => prev ++ [transaction])) ;;
  modify (setCurrentHistoryIndex (fun prev => prev + 1)).

(** [canUndo] and [canRedo], as computed at each render. *)
Definition canUndo (st : Store) : bool := 0 <? currentHistoryIndex st.

Definition canRedo (st : Store) : bool :=
  currentHistoryIndex st <? Z.of_nat (length (stateHistory st)) - 1.

(** The loop of [undo]:
    [for (let i = 0; i <= previousIndex; i++)
       Object.assign(reconstructedState, stateHistory[i].updates)],
    with [n] the number of iterations left.  Reading [.updates] of
    [undefined] throws. *)
Fixpoint reconstruct_from (n i : nat) (history : list StateTransaction)
    (reconstructedState : gmap string string) : completion (gmap string string) :=
  match n with
  | O => Normal reconstructedState
  | S n' =>
      match history !! i with
      | Some transaction =>
          reconstruct_from n' (S i) history (updates transaction ∪ reconstructedState)
      | None => Throw TypeError
      end
  end.

Definition reconstruct (history : list StateTransaction) (previousIndex : Z)
    : completion (gmap string string) :=
  reconstruct_from (Z.to_nat (previousIndex + 1)) 0 history initialDashboardState.

(** [undo] *)
Definition undo : M unit :=
  canUndo_ <- gets canUndo ;;
  if canUndo_ then
    index <- gets currentHistoryIndex ;;
    let previousIndex := index - 1 in
    history <- gets stateHistory ;;
    reconstructedState <- lift (reconstruct history previousIndex) ;;
    modify (setDashboardState reconstructedState) ;;
    modify (setCurrentHistoryIndex (fun _ => previousIndex))
  else ret tt.

(** [redo] *)
Definition redo : M unit :=
  canRedo_ <- gets canRedo ;;
  if canRedo_ then
    index <- gets currentHistoryIndex ;;
    let nextIndex := index + 1 in
    history <- gets stateHistory ;;
    prev <- gets dashboardState ;;
    match array_get history nextIndex with
    | Some transaction =>
        modify (setDashboardState (updates transaction ∪ prev)) ;;
        modify (setCurrentHistoryIndex (fun _ => nextIndex))
    | None => throw TypeError
    end
  else ret tt.

(** [getStateHistory] *)
Definition getStateHistory (st : Store) : list StateTransaction := stateHistory st.

(** The store at the first render. *)
Definition initialStore (storage : gmap string item) (full : bool) : Store :=
  mkStore initialDashboardState [] [] (-1) ∅ storage full [].

(** ** Running operations *)

(** The store an operation leaves, and how it completes. *)
Definition exec {A} (m : M A) (st : Store) : Store := (m st).2.
Definition outcome {A} (m : M A) (st : Store) : completion A := (m st).1.

(** One call of [updateDashboardState], with what it reads of the clock. *)
Record UpdateCall := mkCall {
  call_updates : gmap string string;
  call_source : option string;
  call_clock : Clock
}.

Definition update (c : UpdateCall) : M unit :=
  updateDashboardState (call_updates c) (call_source c) (call_clock c).

(** The calls a component can make on the hook. *)
Inductive action :=
  | UpdateDashboardState (c : UpdateCall)
  | Undo
  | Redo
  | ResetToDefault (clock : Clock)
  | SaveState (name : string)
  | LoadState (name : string)
  | RegisterCallback (cb_id : string) (callback : DashboardCallback)
  | UnregisterCallback (cb_id : string)
  | ClearData.

Definition perform (a : action) : M unit :=
  match a with
  | UpdateDashboardState c => update c
  | Undo => undo
  | Redo => redo
  | ResetToDefault clock => resetToDefault clock
  | SaveState name => saveState name
  | LoadState name => loadState name ;; ret tt
  | RegisterCallback cb_id callback => registerCallback cb_id callback
  | UnregisterCallback cb_id => unregisterCallback cb_id
  | ClearData => clearData
  end.

Definition run (actions : list action) : M unit := forEach actions perform.

(** The actions that go through the transaction log, or leave the
    dashboard state alone: every one but [loadState], [resetToDefault]
    and [clearData]. *)
Definition logged (a : action) : bool :=
  match a with
  | LoadState _ | ResetToDefault _ | ClearData => false
  | _ => true
  end.

(** ** Vocabulary of the properties *)

(** The full replay of the specification: the default state folded with
    the [updates] of every transaction from the first entry through
    position [pos], in order. *)
Definition full_replay (history : list StateTransaction) (pos : Z) : gmap string string :=
  foldl (fun state transaction => updates transaction ∪ state)
        initialDashboardState (take (Z.to_nat (pos + 1)) history).

(** The position is before the first entry or on an entry of the log,
    and the current state is the replay of the log through it. *)
Definition consistent (st : Store) : Prop :=
  -1 ≤ currentHistoryIndex st < Z.of_nat (length (stateHistory st)) ∧
  dashboardState st = full_replay (stateHistory st) (currentHistoryIndex st).

(** The history part of the store is as at the first render. *)
Definition pristine (st : Store) : Prop :=
  dashboardState st = initialDashboardState ∧
  stateHistory st = [] ∧
  currentHistoryIndex st = -1.

(** The callback invocations among some events, in order. *)
Definition invocations (evs : list event)
    : list (string * gmap string string * gmap string string) :=
  omap (fun ev =>
          match ev with
          | Invoked cb_id state previousState => Some (cb_id, state, previousState)
          | _ => None
          end) evs.

(** The cascade as a whole: the dependents of the region and of the
    department reset, for the triggers present. *)
Definition cascade (region department : bool) (m : gmap string string) : gmap string string :=
  let m := if department then <["selectedMetric" := "revenue"]> m else m in
  if region then <["selectedIndustry" := "all"]> m else m.

(** What notifying the listeners [cbs] of [(newState, prev)] shows. *)
Fixpoint notifications (cbs : list (string * DashboardCallback))
    (newState prev : gmap string string) : list event :=
  match cbs with
  | [] => []
  | entry :: rest =>
      Invoked entry.1 newState prev ::
      match entry.2 newState prev with
      | Normal _ => []
      | Throw error => [ConsoleError error]
      end ++ notifications rest newState prev
  end.

(** ** Stores and calls used as examples *)

Definition clock0 : Clock := mkClock 1700000000000 "k3j9x2m1q" 1700000000000.

Definition toEurope : UpdateCall :=
  mkCall {["selectedRegion" := "Europe"]} (Some "test") clock0.

Definition toTechnology : UpdateCall :=
  mkCall {["selectedIndustry" := "Technology"]} (Some "test") clock0.

Definition toSixMonths : UpdateCall :=
  mkCall {["selectedTimeRange" := "6M"]} (Some "test") clock0.

Definition toUsage : UpdateCall :=
  mkCall {["selectedRevenueType" := "usage"]} (Some "test") clock0.

Definition quiet : DashboardCallback := fun _ _ => Normal tt.
Definition faulty : DashboardCallback := fun _ _ => Throw (Raised "listener failed").

(** One update made on the initial store. *)
Definition afterOneUpdate : Store := exec (update toEurope) (initialStore ∅ false).

(** Two updates, then one undo: the position is on the first entry. *)
Definition afterUndo : Store :=
  exec (run [UpdateDashboardState toSixMonths; UpdateDashboardState toUsage; Undo])
       (initialStore ∅ false).

(** A listener, two updates: an undo is possible. *)
Definition listening : Store :=
  exec (run [RegisterCallback "chart" quiet;
             UpdateDashboardState toSixMonths; UpdateDashboardState toUsage])
       (initialStore ∅ false).

(** The default state saved, two updates, one undo, the snapshot loaded:
    a redo is possible, on a state that is not the replay of the log. *)
Definition afterLoad : Store :=
  exec (run [SaveState "default"; UpdateDashboardState toSixMonths;
             UpdateDashboardState toUsage; Undo; LoadState "default"])
       (initialStore ∅ false).

(** The industry chosen before the region. *)
Definition technologyChosen : Store := exec (update toTechnology) (initialStore ∅ false).

(** A snapshot that another instance of the hook wrote to [localStorage]
    after this one was mounted: it is in no in-memory map here. *)
Definition europeSnapshot : gmap string string :=
  <["selectedRegion" := "Europe"]> initialDashboardState.

Definition persistedOnly : Store :=
  initialStore {[ storage_key "europe" := Json europeSnapshot ]} false.

(** ** The rest of the hook: snapshot listing and the mount effect *)

(** [key.startsWith(prefix)] *)
Definition startsWith (prefix key : string) : bool := String.prefix prefix key.

(** [s.replace(pattern, '')]: the first occurrence of [pattern] in [s],
    if there is one, is removed. *)
Definition replace_first_with_empty (pattern s : string) : string :=
  match String.index 0 pattern s with
  | Some i =>
      String.substring 0 i s +:+
      String.substring (i + String.length pattern)
                       (String.length s - (i + String.length pattern)) s
  | None => s
  end.

Definition snapshot_prefix : string := "dashboard_state_".

(** [new Set(xs)], as the list of its elements in insertion order: an
    element already present is not added again. *)
Definition Set_add (seen : list string) (x : string) : list string :=
  if decide (x ∈ seen) then seen else seen ++ [x].

Definition Set_from (xs : list string) : list string := foldl Set_add [] xs.

(** The keys [localStorage.key(0)], ..., [localStorage.key(length - 1)].
    The browser fixes their order; here it is the order of the finite
    map, and nothing below depends on it. *)
Definition localStorage_keys (st : Store) : list string :=
  (map_to_list (localStorage st)).*1.

(** The loop of [getSavedStates] over the keys of [localStorage]. *)
Definition snapshotNames (keys : list string) : list string :=
  omap (fun key =>
          if startsWith snapshot_prefix key
          then Some (replace_first_with_empty snapshot_prefix key)
          else None) keys.

(** [getSavedStates()].  The order of [savedStates.keys()] is likewise
    that of the finite map. *)
Definition getSavedStates (st : Store) : list string :=
  let memoryKeys := (map_to_list (savedStates st)).*1 in
  let localStorageKeys := snapshotNames (localStorage_keys st) in
  Set_from (memoryKeys ++ localStorageKeys).

(** The loop of the mount effect over the entries of [localStorage]:
    [savedStateMap.set(stateName, JSON.parse(savedState))] for every
    key with the prefix whose text is truthy; [JSON.parse] may throw. *)
Fixpoint readSnapshots (entries : list (string * item))
    (savedStateMap : gmap string (gmap string string))
    : completion (gmap string (gmap string string)) :=
  match entries with
  | [] => Normal savedStateMap
  | (key, savedState) :: rest =>
      if startsWith snapshot_prefix key then
        let stateName := replace_first_with_empty snapshot_prefix key in
        if truthy savedState then
          match JSON_parse savedState with
          | Normal parsed => readSnapshots rest (<[stateName := parsed]> savedStateMap)
          | Throw error => Throw error
          end
        else readSnapshots rest savedStateMap
      else readSnapshots rest savedStateMap
  end.

(** "Load saved states from localStorage on mount": the [useEffect]. *)
Definition mountEffect : M unit :=
  try_catch
    (storage <- gets localStorage ;;
     savedStateMap <- lift (readSnapshots (map_to_list storage) ∅) ;;
     modify (setSavedStates (fun _ => savedStateMap)))
    (fun error => console_warn error).

(** ** The rest of the hook: the data views *)

(** The rows of the four datasets ([dashboard.types.ts]).  The functions
    of the hook never look into the numeric fields, so the type of
    JavaScript numbers is a parameter. *)
Module RevenueData.
Record t {number : Type} := mk {
  month : string;
  subscription_revenue : number;
  usage_revenue : number;
  product_line : string;
  department : string;
  region : string
}.
Arguments t : clear implicits.
Arguments mk {number}.
End RevenueData.

Module CustomerData.
Record t {number : Type} := mk {
  industry : string;
  region : string;
  customer_count : number;
  total_revenue : number;
  avg_monthly_spend : number;
  churn_rate : number
}.
Arguments t : clear implicits.
Arguments mk {number}.
End CustomerData.

Module PerformanceData.
Record t {number : Type} := mk {
  employee_id : string;
  name : string;
  department : string;
  performance_score : number;
  projects_completed : number;
  team_size : number;
  budget_managed : number;
  years_experience : number;
  satisfaction_score : number
}.
Arguments t : clear implicits.
Arguments mk {number}.
End PerformanceData.

Module GeographicData.
Record t {number : Type} := mk {
  country : string;
  country_code : string;
  latitude : number;
  longitude : number;
  q1_2023_revenue : number;
  q2_2023_revenue : number;
  q3_2023_revenue : number;
  q4_2023_revenue : number;
  customer_count : number;
  growth_rate : number
}.
Arguments t : clear implicits.
Arguments mk {number}.
End GeographicData.

(** [interface DashboardDatasets] *)
Record DashboardDatasets {number : Type} := mkDatasets {
  revenue : list (RevenueData.t number);
  customer : list (CustomerData.t number);
  performance : list (PerformanceData.t number);
  geographic : list (GeographicData.t number)
}.
Arguments DashboardDatasets : clear implicits.
Arguments mkDatasets {number}.

(** [interface DashboardFilters] *)
Record DashboardFilters := mkFilters {
  timeRange : list string;
  departments : list string;
  regions : list string;
  industries : list string;
  productLines : list string
}.

(** [arr.slice(start)]: a negative [start] counts from the end. *)
Definition slice_from {A} (start : Z) (arr : list A) : list A :=
  if start <? 0
  then drop (Z.to_nat (Z.max (Z.of_nat (length arr) + start) 0)) arr
  else drop (Z.to_nat start) arr.

(** [[...new Set(values)].filter(Boolean)]: the distinct values in order
    of first occurrence, the empty string (falsy) left out. *)
Definition distinctTruthy (values : list string) : list string :=
  filter (fun value => value ≠ "") (Set_from values).

(** [availableFilters] *)
Definition availableFilters {number} (datasets : DashboardDatasets number)
    : DashboardFilters :=
  let filters := mkFilters ["6M"; "1Y"; "2Y"; "All Time"] [] [] [] [] in
  let filters :=
    if decide (0 < length (revenue datasets))%nat then
      mkFilters (timeRange filters)
        (distinctTruthy (RevenueData.department <$> revenue datasets))
        (distinctTruthy ((RevenueData.region <$> revenue datasets) ++
                         (CustomerData.region <$> customer datasets)))
        (industries filters)
        (distinctTruthy (RevenueData.product_line <$> revenue datasets))
    else filters in
  if decide (0 < length (customer datasets))%nat then
    mkFilters (timeRange filters) (departments filters) (regions filters)
      (distinctTruthy (CustomerData.industry <$> customer datasets))
      (productLines filters)
  else filters.

(** [filteredData].  A field of the state object is read with a lookup,
    so a missing field is [undefined] ([None]): it differs from every
    string. *)
Definition filteredData {number} (datasets : DashboardDatasets number)
    (state : gmap string string) : DashboardDatasets number :=
  let filtered := datasets in
  let filtered :=
    if decide (state !! "selectedDepartment" ≠ Some "all") then
      mkDatasets
        (filter (fun d => Some (RevenueData.department d) = state !! "selectedDepartment")
                (revenue filtered))
        (customer filtered)
        (filter (fun d => Some (PerformanceData.department d) = state !! "selectedDepartment")
                (performance filtered))
        (geographic filtered)
    else filtered in
  let filtered :=
    if decide (state !! "selectedRegion" ≠ Some "all") then
      mkDatasets
        (filter (fun d => Some (RevenueData.region d) = state !! "selectedRegion")
                (revenue filtered))
        (filter (fun d => Some (CustomerData.region d) = state !! "selectedRegion")
                (customer filtered))
        (performance filtered)
        (geographic filtered)
    else filtered in
  let filtered :=
    if decide (state !! "selectedIndustry" ≠ Some "all") then
      mkDatasets
        (revenue filtered)
        (filter (fun d => Some (CustomerData.industry d) = state !! "selectedIndustry")
                (customer filtered))
        (performance filtered)
        (geographic filtered)
    else filtered in
  if decide (state !! "selectedTimeRange" ≠ Some "All Time") then
    let monthsToInclude :=
      if decide (state !! "selectedTimeRange" = Some "6M") then 6
      else if decide (state !! "selectedTimeRange" = Some "1Y") then 12
      else 24 in
    mkDatasets (slice_from (- monthsToInclude) (revenue filtered))
               (customer filtered) (performance filtered) (geographic filtered)
  else filtered.

(** [getFilterOptions(filterType)] *)
Definition getFilterOptions {number} (datasets : DashboardDatasets number)
    (filterType : string) : list string :=
  if decide (filterType = "departments") then "all" :: departments (availableFilters datasets)
  else if decide (filterType = "regions") then "all" :: regions (availableFilters datasets)
  else if decide (filterType = "industries") then "all" :: industries (availableFilters datasets)
  else if decide (filterType = "productLines") then "all" :: productLines (availableFilters datasets)
  else if decide (filterType = "timeRange") then timeRange (availableFilters datasets)
  else if decide (filterType = "revenueType") then ["subscription"; "usage"]
  else if decide (filterType = "metrics")
       then ["revenue"; "customer_count"; "performance_score"; "growth_rate"]
  else [].

(** The last transaction of the log. *)
Definition lastTransaction (st : Store) : option StateTransaction :=
  last (stateHistory st).

(** A selection lets a value through when it is ["all"] or that very
    value.  (A field that is missing from the state lets nothing
    through.) *)
Definition selects (state : gmap string string) (field value : string) : Prop :=
  state !! field = Some "all" ∨ state !! field = Some value.

(** [monthsToInclude] of [filteredData]. *)
Definition monthsToInclude (state : gmap string string) : Z :=
  if decide (state !! "selectedTimeRange" = Some "6M") then 6
  else if decide (state !! "selectedTimeRange" = Some "1Y") then 12
  else 24.

(** Datasets used as examples. *)
Definition revenueRow (department region : string) : RevenueData.t Z :=
  RevenueData.mk "2024-01" 1000 200 "cloud" department region.

Definition customerRow (industry region : string) : CustomerData.t Z :=
  CustomerData.mk industry region 10 5000 400 2.

Definition exampleDatasets : DashboardDatasets Z :=
  mkDatasets
    [ revenueRow "engineering" "Europe"; revenueRow "sales" "Europe";
      revenueRow "engineering" "Asia" ]
    [ customerRow "Technology" "Europe"; customerRow "Finance" "Asia" ]
    [ PerformanceData.mk "e1" "Ada" "engineering" 90 12 4 100000 7 8 ]
    [ GeographicData.mk "France" "FR" 46 2 10 20 30 40 5 3 ].

Definition customersOnly : DashboardDatasets Z :=
  mkDatasets [] [ customerRow "Technology" "Europe" ] [] [].

Definition unfiltered : gmap string string :=
  <["selectedTimeRange" := "All Time"]> initialDashboardState.

(** ** Calls made through the closure of an earlier render *)

(** [updateDashboardState(updates, source)] called through the closure
    that the render of [render] created: [callbacks] and
    [currentHistoryIndex] are the values captured then (the dependencies
    of the [useCallback]), so the log is sliced with the index of that
    render; the previous state, the log that is sliced and the index
    that is incremented are those of the pending store, since these
    updates are functional. *)
Definition updateDashboardState_from (render : Store) (updates_ : gmap string string)
    (source_ : option string) (clock : Clock) : M unit :=
  prev <- gets dashboardState ;;
  let newState := prev in
  let finalUpdates := resolveDependencies updates_ in
  let newState := finalUpdates ∪ newState in
  let transaction :=
    mkTransaction (generateTransactionId clock) (now_ts clock) finalUpdates source_ in
  modify (setStateHistory (fun history =>
            slice0 (currentHistoryIndex render + 1) history ++ [transaction])) ;;
  modify (setCurrentHistoryIndex (fun idx => idx + 1)) ;;
  forEach (callbacks render) (fun entry =>
    try_catch (call entry.1 entry.2 newState prev)
              (fun error => console_error error)) ;;
  modify (setDashboardState newState).

(** The calls of [updateDashboardState] that one event handler makes:
    all go through the closure of the render the handler belongs to. *)
Definition updateInOneHandler (calls : list UpdateCall) : M unit :=
  render <- gets (fun st => st) ;;
  forEach calls (fun c =>
    updateDashboardState_from render (call_updates c) (call_source c) (call_clock c)).

(** Two updates made by one handler of the initial render, and three. *)
Definition twoInOneHandler : Store :=
  exec (updateInOneHandler [toSixMonths; toUsage]) (initialStore ∅ false).

Definition threeInOneHandler : Store :=
  exec (updateInOneHandler [toSixMonths; toEurope; toUsage]) (initialStore ∅ false).

(** ** Runs on which redo is compared with the replay *)

(** Whether [loadState(name)] finds a snapshot on [st]. *)
Definition finds (name : string) (st : Store) : bool :=
  match outcome (loadState name) st with
  | Normal found => found
  | Throw _ => false
  end.

(** Whether the current state may have left the replay of the log, after
    the call [a] made on [st]: [resetToDefault], [clearData] and a
    [loadState] that finds a snapshot install a state of their own; an
    update, and an undo that moves the position, put an end to it (the
    update leaves no redo possible, the undo recomputes the state from
    the log). *)
Definition stale_after (a : action) (st : Store) (stale : bool) : bool :=
  match a with
  | UpdateDashboardState _ => false
  | Undo => if canUndo st then false else stale
  | ResetToDefault _ | ClearData => true
  | LoadState name => stale || finds name st
  | Redo | SaveState _ | RegisterCallback _ _ | UnregisterCallback _ => stale
  end.

(** The same at the end of a run of calls, each made from the latest
    render. *)
Fixpoint stale_at_end (actions : list action) (st : Store) (stale : bool) : bool :=
  match actions with
  | [] => stale
  | a :: rest => stale_at_end rest (exec (perform a) st) (stale_after a st stale)
  end.

(** The position is before the first entry or on an entry of the log,
    and, unless the state is marked stale, where a redo is possible the
    current state is the replay of the log through the position. *)
Definition redoable (stale : bool) (st : Store) : Prop :=
  -1 ≤ currentHistoryIndex st < Z.of_nat (length (stateHistory st)) ∧
  (stale = false → canRedo st = true →
   dashboardState st = full_replay (stateHistory st) (currentHistoryIndex st)).

(** The default state saved, an update, the snapshot loaded, a reset
    made at the end of the log, an update, an undo: the position is on
    the reset transaction and a redo is possible. *)
Definition afterResetUndo : Store :=
  exec (run [SaveState "default"; UpdateDashboardState toSixMonths;
             LoadState "default"; ResetToDefault clock0;
             UpdateDashboardState toUsage; Undo])
       (initialStore ∅ false).

(** The default state saved, then two updates: [loadState] of the
    snapshot finds it, and an undo is possible. *)
Definition savedThenUpdated : Store :=
  exec (run [SaveState "default"; UpdateDashboardState toSixMonths;
             UpdateDashboardState toUsage])
       (initialStore ∅ false).

(** ** Texts that [JSON.parse] rejects *)

(** The white space of JSON: space, tab, line feed, carriage return. *)
Definition json_whitespace (c : Ascii.ascii) : bool :=
  bool_decide (Ascii.nat_of_ascii c ∈ [32; 9; 10; 13]%nat).

Fixpoint skip_whitespace (s : string) : string :=
  match s with
  | EmptyString => EmptyString
  | String c rest => if json_whitespace c then skip_whitespace rest else s
  end.

(** The characters a JSON value can start with: an opening brace or
    bracket, a double quote, a minus sign, a digit, or the first letter
    of [true], [false] and [null]. *)
Definition json_value_start (c : Ascii.ascii) : bool :=
  bool_decide (Ascii.nat_of_ascii c ∈
    [123; 91; 34; 45; 48; 49; 50; 51; 52; 53; 54; 55; 56; 57; 116; 102; 110]%nat).

(** A sufficient condition for [JSON.parse(raw)] to throw on a truthy
    text: [raw] is not empty and, past the leading white space, it ends
    or goes on with a character no JSON value starts with. *)
Definition rejected_by_JSON_parse (raw : string) : bool :=
  match raw with
  | EmptyString => false
  | String _ _ =>
      match skip_whitespace raw with
      | EmptyString => true
      | String c _ => negb (json_value_start c)
      end
  end.

(** Eight months of revenue rows, and the six-month selection. *)
Definition monthRow (month : string) : RevenueData.t Z :=
  RevenueData.mk month 1000 200 "cloud" "engineering" "Europe".

Definition eightMonths : DashboardDatasets Z :=
  mkDatasets
    [ monthRow "2024-01"; monthRow "2024-02"; monthRow "2024-03"; monthRow "2024-04";
      monthRow "2024-05"; monthRow "2024-06"; monthRow "2024-07"; monthRow "2024-08" ]
    [] [] [].

Definition lastSixMonths : gmap string string :=
  <["selectedTimeRange" := "6M"]> initialDashboardState.

(** * Properties *)

(** Closed facts about the example stores are settled by evaluation, one
    conjunct at a time. *)
Ltac evaluate :=
  repeat match goal with |- _ ∧ _ => split end;
  try (vm_compute; reflexivity).


(** ** Cascade resolution *)

Lemma applyDependency_cases (finalUpdates : gmap string string) (key : string) :
  applyDependency finalUpdates key =
    if decide (key = "selectedRegion") then <["selectedIndustry" := "all"]> finalUpdates
    else if decide (key = "selectedDepartment") then <["selectedMetric" := "revenue"]> finalUpdates
    else finalUpdates.
Proof.
  unfold applyDependency. simpl.
  destruct (decide (key = "selectedRegion")) as [->|Hr].
  - reflexivity.
  - rewrite bool_decide_eq_false_2 by congruence.
    destruct (decide (key = "selectedDepartment")) as [->|Hd].
    + reflexivity.
    + rewrite bool_decide_eq_false_2 by congruence. reflexivity.
Qed.

Lemma cascade_step (r d : bool) (m : gmap string string) (key : string) :
  applyDependency (cascade r d m) key =
    cascade (r || bool_decide (key = "selectedRegion"))
            (d || bool_decide (key = "selectedDepartment")) m.
Proof.
  rewrite applyDependency_cases. unfold cascade.
  repeat case_decide; repeat case_bool_decide; subst; try done;
    destruct r, d; simpl; rewrite ?insert_insert_eq; try done.
  all: rewrite insert_insert_ne by discriminate; by rewrite ?insert_insert_eq.
Qed.

Lemma foldl_applyDependency (keys : list string) (r d : bool) (m : gmap string string) :
  foldl applyDependency (cascade r d m) keys =
    cascade (r || bool_decide ("selectedRegion" ∈ keys))
            (d || bool_decide ("selectedDepartment" ∈ keys)) m.
Proof.
  assert (Hcons : ∀ (k key : string) (rest : list string),
             bool_decide (k = key) || bool_decide (k ∈ rest)
             = bool_decide (k ∈ key :: rest)).
  { intros k key rest. apply eq_true_iff_eq.
    rewrite orb_true_iff, !bool_decide_eq_true, elem_of_cons. tauto. }
  revert r d. induction keys as [|key keys IH]; intros r d.
  - cbn [foldl]. rewrite !bool_decide_eq_false_2 by apply not_elem_of_nil.
    by rewrite !orb_false_r.
  - cbn [foldl]. rewrite cascade_step, IH, <- !orb_assoc.
    rewrite <- !Hcons.
    rewrite (bool_decide_ext (key = "selectedRegion") ("selectedRegion" = key)) by done.
    by rewrite (bool_decide_ext (key = "selectedDepartment") ("selectedDepartment" = key)).
Qed.

(** [finalUpdates] is [updates] with the dependents of the triggers it
    holds reset; the order in which the keys are visited does not matter. *)
Lemma resolveDependencies_spec (updates_ : gmap string string) :
  resolveDependencies updates_ =
    cascade (bool_decide (is_Some (updates_ !! "selectedRegion")))
            (bool_decide (is_Some (updates_ !! "selectedDepartment"))) updates_.
Proof.
  unfold resolveDependencies.
  change updates_ with (cascade false false updates_) at 1.
  rewrite foldl_applyDependency. simpl.
  assert (Hk : ∀ k, bool_decide (k ∈ Object_keys updates_)
                    = bool_decide (is_Some (updates_ !! k))).
  { intros k. apply bool_decide_ext. unfold Object_keys.
    rewrite list_elem_of_fmap. split.
    - intros [[k' v] [-> Hin]]. apply elem_of_map_to_list in Hin. eauto.
    - intros [v Hv]. exists (k, v). split; [done|]. by apply elem_of_map_to_list. }
  by rewrite !Hk.
Qed.

Lemma resolveDependencies_region (value : string) :
  resolveDependencies {["selectedRegion" := value]} =
    <["selectedIndustry" := "all"]> {["selectedRegion" := value]}.
Proof.
  rewrite resolveDependencies_spec.
  rewrite bool_decide_eq_true_2 by (rewrite lookup_singleton_eq; eauto).
  rewrite bool_decide_eq_false_2; [ reflexivity | ].
  rewrite lookup_singleton_ne by discriminate. by intros [? ?].
Qed.

(** ** Notification of the listeners *)

Lemma emitAll_nil (st : Store) : emitAll [] st = st.
Proof. destruct st. unfold emitAll. simpl. by rewrite app_nil_r. Qed.

Lemma emitAll_emitAll (evs evs' : list event) (st : Store) :
  emitAll evs' (emitAll evs st) = emitAll (evs ++ evs') st.
Proof. unfold emitAll. simpl. by rewrite app_assoc. Qed.

(** The loop over the callbacks always completes normally, whatever the
    listeners do, and changes nothing but the trace. *)
Lemma forEach_callbacks (cbs : list (string * DashboardCallback))
    (newState prev : gmap string string) (st : Store) :
  forEach cbs (fun entry =>
      try_catch (call entry.1 entry.2 newState prev)
                (fun error => console_error error)) st
  = (Normal tt, emitAll (notifications cbs newState prev) st).
Proof.
  revert st. induction cbs as [|[cb_id callback] rest IH]; intros st.
  - simpl. unfold ret. by rewrite emitAll_nil.
  - cbn [forEach notifications]. unfold bind at 1. unfold try_catch at 1, call at 1.
    cbn [fst snd].
    destruct (callback newState prev) as [[]|error].
    + rewrite IH. f_equal. unfold emitAll, emit. simpl.
      by rewrite <- app_assoc.
    + unfold console_error, modify. rewrite IH. f_equal.
      unfold emitAll, emit. simpl. by rewrite <- !app_assoc.
Qed.

(** [updateDashboardState] in closed form. *)
Lemma updateDashboardState_eq (updates_ : gmap string string) (source_ : option string)
    (clock : Clock) (st : Store) :
  updateDashboardState updates_ source_ clock st =
    (Normal tt,
     mkStore (resolveDependencies updates_ ∪ dashboardState st)
             (callbacks st)
             (slice0 (currentHistoryIndex st + 1) (stateHistory st) ++
                [mkTransaction (generateTransactionId clock) (now_ts clock)
                               (resolveDependencies updates_) source_])
             (currentHistoryIndex st + 1)
             (savedStates st) (localStorage st) (storageFull st)
             (trace st ++ notifications (callbacks st)
                            (resolveDependencies updates_ ∪ dashboardState st)
                            (dashboardState st))).
Proof.
  unfold updateDashboardState, bind, gets, modify.
  cbn [callbacks setCurrentHistoryIndex setStateHistory].
  rewrite forEach_callbacks. reflexivity.
Qed.

(** ** The transaction log *)

Lemma slice0_take {A} (end_ : Z) (arr : list A) :
  0 ≤ end_ → slice0 end_ arr = take (Z.to_nat end_) arr.
Proof.
  intros H. unfold slice0.
  destruct (Z.ltb_spec end_ 0); [ lia | reflexivity ].
Qed.

Lemma reconstruct_from_spec (n i : nat) (history : list StateTransaction)
    (state : gmap string string) :
  (i + n ≤ length history)%nat →
  reconstruct_from n i history state =
    Normal (foldl (fun state transaction => updates transaction ∪ state) state
                  (take n (drop i history))).
Proof.
  revert i state. induction n as [|n IH]; intros i state Hlen.
  - reflexivity.
  - cbn [reconstruct_from].
    destruct (lookup_lt_is_Some_2 history i) as [transaction Htx]; [ lia | ].
    rewrite Htx, IH by lia.
    rewrite (drop_S _ _ _ Htx). reflexivity.
Qed.

(** The loop of [undo] computes the full replay of the specification,
    as long as it stays inside the log. *)
Lemma reconstruct_full_replay (history : list StateTransaction) (pos : Z) :
  pos < Z.of_nat (length history) →
  reconstruct history pos = Normal (full_replay history pos).
Proof.
  intros H. unfold reconstruct, full_replay.
  rewrite reconstruct_from_spec by lia. by rewrite drop_0.
Qed.

Lemma full_replay_next (history : list StateTransaction) (pos : Z)
    (transaction : StateTransaction) :
  -1 ≤ pos → array_get history (pos + 1) = Some transaction →
  full_replay history (pos + 1) = updates transaction ∪ full_replay history pos.
Proof.
  intros Hpos. unfold array_get.
  destruct (Z.ltb_spec (pos + 1) 0); [ lia | ]. intros Htx.
  unfold full_replay.
  replace (Z.to_nat (pos + 1 + 1)) with (S (Z.to_nat (pos + 1))) by lia.
  rewrite (take_S_r _ _ _ Htx), foldl_app. reflexivity.
Qed.

Lemma full_replay_append (history : list StateTransaction) (pos : Z)
    (transaction : StateTransaction) :
  -1 ≤ pos < Z.of_nat (length history) →
  full_replay (take (Z.to_nat (pos + 1)) history ++ [transaction]) (pos + 1)
  = updates transaction ∪ full_replay history pos.
Proof.
  intros Hpos. unfold full_replay.
  replace (Z.to_nat (pos + 1 + 1)) with (S (Z.to_nat (pos + 1))) by lia.
  rewrite take_ge by (rewrite length_app, length_take; simpl; lia).
  rewrite foldl_app. reflexivity.
Qed.

Lemma undo_noop (st : Store) : canUndo st = false → undo st = (Normal tt, st).
Proof. intros H. unfold undo, bind, gets. by rewrite H. Qed.

Lemma redo_noop (st : Store) : canRedo st = false → redo st = (Normal tt, st).
Proof. intros H. unfold redo, bind, gets. by rewrite H. Qed.

Lemma undo_eq (st : Store) :
  canUndo st = true →
  currentHistoryIndex st ≤ Z.of_nat (length (stateHistory st)) →
  undo st =
    (Normal tt,
     setCurrentHistoryIndex (fun _ => currentHistoryIndex st - 1)
       (setDashboardState
          (full_replay (stateHistory st) (currentHistoryIndex st - 1)) st)).
Proof.
  intros Hcan Hlen. unfold undo, bind, gets. rewrite Hcan.
  unfold lift. rewrite reconstruct_full_replay by lia. reflexivity.
Qed.

Lemma redo_eq (st : Store) (transaction : StateTransaction) :
  canRedo st = true →
  array_get (stateHistory st) (currentHistoryIndex st + 1) = Some transaction →
  redo st =
    (Normal tt,
     setCurrentHistoryIndex (fun _ => currentHistoryIndex st + 1)
       (setDashboardState (updates transaction ∪ dashboardState st) st)).
Proof.
  intros Hcan Htx. unfold redo, bind, gets. rewrite Hcan, Htx. reflexivity.
Qed.

Lemma canUndo_true (st : Store) : canUndo st = true ↔ 0 < currentHistoryIndex st.
Proof. unfold canUndo. apply Z.ltb_lt. Qed.

Lemma canRedo_true (st : Store) :
  canRedo st = true ↔ currentHistoryIndex st < Z.of_nat (length (stateHistory st)) - 1.
Proof. unfold canRedo. apply Z.ltb_lt. Qed.

Lemma array_get_in_range {A} (arr : list A) (i : Z) :
  0 ≤ i < Z.of_nat (length arr) → ∃ x, array_get arr i = Some x.
Proof.
  intros H. unfold array_get. destruct (Z.ltb_spec i 0); [ lia | ].
  apply lookup_lt_is_Some_2. lia.
Qed.

(** *** The replay invariant *)

Lemma pristine_consistent (st : Store) : pristine st → consistent st.
Proof.
  intros (Hs & Hh & Hi). unfold consistent. rewrite Hs, Hh, Hi.
  split; [ simpl; lia | reflexivity ].
Qed.

Lemma update_consistent (c : UpdateCall) (st : Store) :
  consistent st → consistent (exec (update c) st).
Proof.
  intros [Hpos Hstate]. unfold exec, update. rewrite updateDashboardState_eq.
  unfold consistent. cbn [snd dashboardState stateHistory currentHistoryIndex].
  rewrite slice0_take by lia. split.
  - rewrite length_app, length_take. simpl. lia.
  - rewrite full_replay_append by lia. by rewrite Hstate at 1.
Qed.

Lemma undo_consistent (st : Store) : consistent st → consistent (exec undo st).
Proof.
  intros [Hpos Hstate]. unfold exec.
  destruct (canUndo st) eqn:Hcan.
  - rewrite undo_eq by (done || lia). apply canUndo_true in Hcan.
    unfold consistent. simpl. split; [ lia | reflexivity ].
  - rewrite undo_noop by done. by split.
Qed.

Lemma redo_consistent (st : Store) : consistent st → consistent (exec redo st).
Proof.
  intros [Hpos Hstate]. unfold exec.
  destruct (canRedo st) eqn:Hcan.
  - apply canRedo_true in Hcan.
    destruct (array_get_in_range (stateHistory st) (currentHistoryIndex st + 1))
      as [transaction Htx]; [ lia | ].
    rewrite (redo_eq st transaction) by (done || by apply canRedo_true).
    unfold consistent. simpl. split; [ lia | ].
    rewrite (full_replay_next _ _ transaction) by (done || lia).
    by rewrite Hstate at 1.
  - rewrite redo_noop by done. by split.
Qed.

Lemma bind_Normal {A B} (m : M A) (k : A → M B) (st st' : Store) (a : A) :
  m st = (Normal a, st') → bind m k st = k a st'.
Proof. intros H. unfold bind. by rewrite H. Qed.

Lemma exec_Normal {A} (m : M A) (st st' : Store) (a : A) :
  m st = (Normal a, st') → exec m st = st'.
Proof. intros H. unfold exec. by rewrite H. Qed.

Lemma update_Normal (c : UpdateCall) (st : Store) :
  update c st = (Normal tt, exec (update c) st).
Proof. unfold exec, update. by rewrite updateDashboardState_eq. Qed.

Lemma undo_Normal (st : Store) :
  consistent st → undo st = (Normal tt, exec undo st).
Proof.
  intros [Hpos _]. unfold exec. destruct (canUndo st) eqn:Hcan.
  - by rewrite undo_eq by (done || lia).
  - by rewrite undo_noop.
Qed.

Lemma redo_Normal (st : Store) :
  consistent st → redo st = (Normal tt, exec redo st).
Proof.
  intros [Hpos _]. unfold exec. destruct (canRedo st) eqn:Hcan.
  - pose proof (proj1 (canRedo_true st) Hcan).
    destruct (array_get_in_range (stateHistory st) (currentHistoryIndex st + 1))
      as [transaction Htx]; [ lia | ].
    by rewrite (redo_eq st transaction).
  - by rewrite redo_noop.
Qed.

(** After an update the position is on the last entry of the log. *)
Lemma update_position (c : UpdateCall) (st : Store) :
  -1 ≤ currentHistoryIndex st < Z.of_nat (length (stateHistory st)) →
  currentHistoryIndex (exec (update c) st) = currentHistoryIndex st + 1 ∧
  Z.of_nat (length (stateHistory (exec (update c) st))) = currentHistoryIndex st + 2.
Proof.
  intros Hpos. unfold exec, update. rewrite updateDashboardState_eq.
  cbn [snd stateHistory currentHistoryIndex]. split; [ reflexivity | ].
  rewrite slice0_take by lia. rewrite length_app, length_take. simpl. lia.
Qed.

(** A run of updates from a store whose position is on the last entry. *)
Lemma updates_run (calls : list UpdateCall) (st : Store) :
  consistent st →
  currentHistoryIndex st = Z.of_nat (length (stateHistory st)) - 1 →
  ∃ st', forEach calls update st = (Normal tt, st') ∧ consistent st' ∧
         currentHistoryIndex st' = currentHistoryIndex st + Z.of_nat (length calls) ∧
         Z.of_nat (length (stateHistory st')) = currentHistoryIndex st' + 1.
Proof.
  revert st. induction calls as [|c calls IH]; intros st Hc Hend.
  - exists st. simpl. unfold ret. split; [done|]. split; [done|]. lia.
  - destruct (update_position c st) as [Hi Hl]; [ apply Hc | ].
    destruct (IH (exec (update c) st)) as (st' & Hrun & Hc' & Hi' & Hl').
    { by apply update_consistent. }
    { lia. }
    exists st'. cbn [forEach]. rewrite (bind_Normal _ _ _ _ _ (update_Normal c st)).
    split; [done|]. split; [done|]. split; [|done].
    rewrite Hi', Hi. simpl length. lia.
Qed.

Lemma undo_position (st : Store) :
  consistent st →
  stateHistory (exec undo st) = stateHistory st ∧
  currentHistoryIndex (exec undo st)
  = Z.max (Z.min (currentHistoryIndex st) 0) (currentHistoryIndex st - 1).
Proof.
  intros [Hpos _]. unfold exec. destruct (canUndo st) eqn:Hcan.
  - rewrite undo_eq by (done || lia). apply canUndo_true in Hcan. simpl. split; [done|lia].
  - rewrite undo_noop by done. simpl. split; [done|].
    unfold canUndo in Hcan. apply Z.ltb_ge in Hcan. lia.
Qed.

Lemma redo_position (st : Store) :
  consistent st →
  stateHistory (exec redo st) = stateHistory st ∧
  currentHistoryIndex (exec redo st)
  = Z.min (Z.of_nat (length (stateHistory st)) - 1) (currentHistoryIndex st + 1).
Proof.
  intros [Hpos _]. unfold exec. destruct (canRedo st) eqn:Hcan.
  - pose proof (proj1 (canRedo_true st) Hcan).
    destruct (array_get_in_range (stateHistory st) (currentHistoryIndex st + 1))
      as [transaction Htx]; [ lia | ].
    rewrite (redo_eq st transaction) by done. simpl. split; [done|lia].
  - rewrite redo_noop by done. simpl. split; [done|].
    unfold canRedo in Hcan. apply Z.ltb_ge in Hcan. lia.
Qed.

(** [k] undos in a row stop at the first entry of the log. *)
Lemma undo_times (k : nat) (st : Store) :
  consistent st →
  ∃ st', times k undo st = (Normal tt, st') ∧ consistent st' ∧
         stateHistory st' = stateHistory st ∧
         currentHistoryIndex st'
         = Z.max (Z.min (currentHistoryIndex st) 0) (currentHistoryIndex st - Z.of_nat k).
Proof.
  revert st. induction k as [|k IH]; intros st Hc.
  - exists st. simpl. unfold ret. pose proof (proj1 Hc).
    split; [done|]. split; [done|]. split; [done|]. lia.
  - destruct (undo_position st Hc) as [Hh Hi].
    destruct (IH (exec undo st) (undo_consistent st Hc)) as (st' & Hrun & Hc' & Hh' & Hi').
    exists st'. cbn [times]. rewrite (bind_Normal _ _ _ _ _ (undo_Normal st Hc)).
    split; [done|]. split; [done|]. split; [congruence|]. lia.
Qed.

(** [k] redos in a row stop at the last entry of the log. *)
Lemma redo_times (k : nat) (st : Store) :
  consistent st →
  ∃ st', times k redo st = (Normal tt, st') ∧ consistent st' ∧
         stateHistory st' = stateHistory st ∧
         currentHistoryIndex st'
         = Z.min (Z.of_nat (length (stateHistory st)) - 1)
                 (currentHistoryIndex st + Z.of_nat k).
Proof.
  revert st. induction k as [|k IH]; intros st Hc.
  - exists st. simpl. unfold ret. pose proof (proj1 Hc).
    split; [done|]. split; [done|]. split; [done|]. lia.
  - destruct (redo_position st Hc) as [Hh Hi].
    destruct (IH (exec redo st) (redo_consistent st Hc)) as (st' & Hrun & Hc' & Hh' & Hi').
    exists st'. cbn [times]. rewrite (bind_Normal _ _ _ _ _ (redo_Normal st Hc)).
    pose proof (proj1 Hc).
    split; [done|]. split; [done|]. split; [congruence|]. rewrite Hi', Hh. lia.
Qed.

(** Under the replay invariant the log and the position fix the state. *)
Lemma consistent_state (st st' : Store) :
  consistent st → consistent st' →
  stateHistory st' = stateHistory st →
  currentHistoryIndex st' = currentHistoryIndex st →
  dashboardState st' = dashboardState st.
Proof. intros [_ H] [_ H'] Hh Hi. rewrite H, H', Hh, Hi. reflexivity. Qed.

Lemma initialStore_pristine (storage : gmap string item) (full : bool) :
  pristine (initialStore storage full).
Proof. by repeat split. Qed.

(** ** History replay determinism *)

(** With a render between the calls: for every sequence of N
    [updateDashboardState] calls made one after the other, each from the
    latest render, on a store in its initial history state, N undos
    followed by N redos all complete and leave exactly the dashboard
    state that the N updates had produced. *)
Theorem undo_all_redo_all (calls : list UpdateCall) (st0 : Store) :
  pristine st0 →
  ∃ st1 st2,
    forEach calls update st0 = (Normal tt, st1) ∧
    (times (length calls) undo ;; times (length calls) redo) st1 = (Normal tt, st2) ∧
    dashboardState st2 = dashboardState st1.
Proof.
  intros Hp. pose proof (pristine_consistent st0 Hp) as Hc0.
  destruct Hp as (_ & Hh0 & Hi0).
  destruct (updates_run calls st0 Hc0) as (st1 & Hrun & Hc1 & Hi1 & Hl1).
  { rewrite Hh0, Hi0. reflexivity. }
  destruct (undo_times (length calls) st1 Hc1) as (su & Hundo & Hcu & Hhu & Hiu).
  destruct (redo_times (length calls) su Hcu) as (st2 & Hredo & Hc2 & Hh2 & Hi2).
  exists st1, st2. split; [done|]. split.
  - by rewrite (bind_Normal _ _ _ _ _ Hundo).
  - apply consistent_state; try done; [ congruence | ].
    rewrite Hi2, Hiu, Hhu. lia.
Qed.

Lemma undo_all_redo_all_witness :
  ∃ st1 st2,
    forEach [toSixMonths; toEurope; toUsage] update (initialStore ∅ false) = (Normal tt, st1) ∧
    (times 3 undo ;; times 3 redo) st1 = (Normal tt, st2) ∧
    dashboardState st2 = dashboardState st1.
Proof.
  apply (undo_all_redo_all [toSixMonths; toEurope; toUsage] (initialStore ∅ false)).
  apply initialStore_pristine.
Defined.

(** ** Truncate on branch *)

(** With a render between the calls: after M updates made one after the
    other, each from the latest render, from the initial history state,
    and K undos with K < M, one more update completes, makes [canRedo]
    false and leaves a log of exactly (M - K) + 1 transactions. *)
Theorem truncate_on_branch (calls : list UpdateCall) (K : nat) (c : UpdateCall)
    (st0 : Store) :
  pristine st0 →
  (K < length calls)%nat →
  ∃ st',
    (forEach calls update ;; times K undo ;; update c) st0 = (Normal tt, st') ∧
    canRedo st' = false ∧
    length (getStateHistory st') = (length calls - K + 1)%nat.
Proof.
  intros Hp HK. pose proof (pristine_consistent st0 Hp) as Hc0.
  destruct Hp as (_ & Hh0 & Hi0).
  destruct (updates_run calls st0 Hc0) as (st1 & Hrun & Hc1 & Hi1 & Hl1).
  { rewrite Hh0, Hi0. reflexivity. }
  destruct (undo_times K st1 Hc1) as (su & Hundo & Hcu & Hhu & Hiu).
  destruct (update_position c su (proj1 Hcu)) as [Hi Hl].
  exists (exec (update c) su). split.
  - rewrite (bind_Normal _ _ _ _ _ Hrun), (bind_Normal _ _ _ _ _ Hundo).
    apply update_Normal.
  - unfold canRedo, getStateHistory. split.
    + apply Z.ltb_ge. lia.
    + lia.
Qed.

Lemma truncate_on_branch_witness :
  ∃ st',
    (forEach [toSixMonths; toEurope; toUsage] update ;; times 2 undo ;; update toTechnology)
      (initialStore ∅ false) = (Normal tt, st') ∧
    canRedo st' = false ∧
    length (getStateHistory st') = (3 - 2 + 1)%nat.
Proof.
  apply (truncate_on_branch [toSixMonths; toEurope; toUsage] 2 toTechnology
                            (initialStore ∅ false)).
  - apply initialStore_pristine.
  - simpl. lia.
Defined.

(** ** Updates made by one event handler *)

(** A call made from the latest render is a call through the closure of
    the store it acts on. *)
Lemma updateDashboardState_latest_render (updates_ : gmap string string)
    (source_ : option string) (clock : Clock) (st : Store) :
  updateDashboardState updates_ source_ clock st
  = updateDashboardState_from st updates_ source_ clock st.
Proof. reflexivity. Qed.

Lemma updateInOneHandler_single (c : UpdateCall) (st : Store) :
  updateInOneHandler [c] st = update c st.
Proof.
  unfold updateInOneHandler, update. unfold bind at 1, gets at 1.
  cbn [forEach]. unfold bind at 1.
  change (updateDashboardState_from st (call_updates c) (call_source c) (call_clock c) st)
    with (updateDashboardState (call_updates c) (call_source c) (call_clock c) st).
  by rewrite updateDashboardState_eq.
Qed.

(** C7, on the code: two updates made by one event handler of the
    initial render both slice the log with the index of that render, so
    the second drops the transaction of the first: the log holds one
    transaction, the position is 1 and the state has both updates.  Two
    undos and two redos then complete and leave a state without the
    first update: not the state the two updates had produced. *)
Theorem updates_in_one_handler_break_replay :
  updateInOneHandler [toSixMonths; toUsage] (initialStore ∅ false)
  = (Normal tt, twoInOneHandler) ∧
  length (getStateHistory twoInOneHandler) = 1%nat ∧
  currentHistoryIndex twoInOneHandler = 1 ∧
  dashboardState twoInOneHandler !! "selectedTimeRange" = Some "6M" ∧
  dashboardState twoInOneHandler !! "selectedRevenueType" = Some "usage" ∧
  (times 2 undo ;; times 2 redo) twoInOneHandler
  = (Normal tt, exec (times 2 undo ;; times 2 redo) twoInOneHandler) ∧
  dashboardState (exec (times 2 undo ;; times 2 redo) twoInOneHandler)
    !! "selectedTimeRange" = Some "1Y" ∧
  dashboardState (exec (times 2 undo ;; times 2 redo) twoInOneHandler)
  ≠ dashboardState twoInOneHandler.
Proof.
  evaluate.
  intros H. apply (f_equal (fun m : gmap string string => m !! "selectedTimeRange")) in H.
  vm_compute in H. discriminate.
Qed.

(** C8, on the code: three updates made by one event handler of the
    initial render leave a log of one transaction with the position at 2.
    The undo that follows (K = 1 < M = 3) reads an entry the log does not
    have and throws; the next update leaves a log of 2 transactions, not
    of (3 - 1) + 1. *)
Theorem updates_in_one_handler_break_truncation :
  updateInOneHandler [toSixMonths; toEurope; toUsage] (initialStore ∅ false)
  = (Normal tt, threeInOneHandler) ∧
  length (getStateHistory threeInOneHandler) = 1%nat ∧
  currentHistoryIndex threeInOneHandler = 2 ∧
  canUndo threeInOneHandler = true ∧
  undo threeInOneHandler = (Throw TypeError, threeInOneHandler) ∧
  update toTechnology threeInOneHandler
  = (Normal tt, exec (update toTechnology) threeInOneHandler) ∧
  length (getStateHistory (exec (update toTechnology) threeInOneHandler)) = 2%nat ∧
  canRedo (exec (update toTechnology) threeInOneHandler) = false.
Proof. evaluate. Qed.

(** ** Callback fan-out *)





(** ** Snapshots *)

(** C10: whatever the name and whether or not a snapshot is found,
    [loadState] completes and leaves the transaction log, the position
    (hence [canUndo] and [canRedo]) and the callback registry as they
    were, and invokes no callback. *)
Theorem loadState_frame (name : string) (st : Store) :
  ∃ found st' evs,
    loadState name st = (Normal found, st') ∧
    getStateHistory st' = getStateHistory st ∧
    currentHistoryIndex st' = currentHistoryIndex st ∧
    canUndo st' = canUndo st ∧
    canRedo st' = canRedo st ∧
    callbacks st' = callbacks st ∧
    trace st' = trace st ++ evs ∧
    invocations evs = [].
Proof.
  unfold loadState, bind, gets. cbn [savedStates].
  destruct (savedStates st !! name) as [memoryState|].
  - exists true, (setDashboardState memoryState st), [].
    rewrite app_nil_r. by repeat split.
  - unfold try_catch, localStorage_getItem, bind, gets.
    destruct (localStorage st !! storage_key name) as [[ | parsed | raw ]|].
    + exists false, st, []. rewrite app_nil_r. by repeat split.
    + exists true, (setDashboardState parsed st), [].
      rewrite app_nil_r. by repeat split.
    + exists false, (emit (ConsoleWarn SyntaxError) st), [ConsoleWarn SyntaxError].
      by repeat split.
    + exists false, st, []. rewrite app_nil_r. by repeat split.
Qed.

(** C6, as stated, fails: a snapshot that is only in [localStorage] is
    loaded, but [loadState] does not put it in the in-memory map. *)
Lemma loadState_leaves_memory_alone :
  savedStates persistedOnly !! "europe" = None ∧
  localStorage persistedOnly !! storage_key "europe" = Some (Json europeSnapshot) ∧
  outcome (loadState "europe") persistedOnly = Normal true ∧
  dashboardState (exec (loadState "europe") persistedOnly) = europeSnapshot ∧
  savedStates (exec (loadState "europe") persistedOnly) !! "europe" = None.
Proof. evaluate. Qed.

(** C6, amended: for a name that is not in the in-memory map, [loadState]
    of a snapshot held by the persistence layer returns [true] and makes
    it the current state, leaving the in-memory map as it was; [loadState]
    of a name that the persistence layer does not hold either returns
    [false] and leaves the whole store, the current state included,
    unchanged. *)
Theorem loadState_from_persistence (name : string) (st : Store) :
  savedStates st !! name = None →
  (∀ snapshot, localStorage st !! storage_key name = Some (Json snapshot) →
     ∃ st', loadState name st = (Normal true, st') ∧
            dashboardState st' = snapshot ∧
            savedStates st' = savedStates st) ∧
  (localStorage st !! storage_key name = None →
     loadState name st = (Normal false, st)).
Proof.
  intros Hmem. split.
  - intros snapshot Hls. exists (setDashboardState snapshot st).
    unfold loadState, bind, gets, try_catch, localStorage_getItem, gets.
    cbn [savedStates]. rewrite Hmem, Hls. by repeat split.
  - intros Hls.
    unfold loadState, bind, gets, try_catch, localStorage_getItem, gets.
    cbn [savedStates]. by rewrite Hmem, Hls.
Qed.

Lemma loadState_from_persistence_witness :
  (∃ st', loadState "europe" persistedOnly = (Normal true, st') ∧
          dashboardState st' = europeSnapshot ∧
          savedStates st' = savedStates persistedOnly) ∧
  loadState "asia" persistedOnly = (Normal false, persistedOnly).
Proof.
  split.
  - apply (proj1 (loadState_from_persistence "europe" persistedOnly eq_refl) europeSnapshot).
    reflexivity.
  - apply (proj2 (loadState_from_persistence "asia" persistedOnly eq_refl)).
    reflexivity.
Defined.

(** ** Permissive merge and the region cascade *)

(** C5, as stated, fails: a region update resets the industry. *)
Lemma region_update_resets_industry :
  dashboardState technologyChosen !! "selectedIndustry" = Some "Technology" ∧
  dashboardState
    (exec (updateDashboardState {["selectedRegion" := "Europe"]} None clock0)
          technologyChosen) !! "selectedIndustry" = Some "all".
Proof. evaluate. Qed.

(** C5, amended: for every prior state,
    [updateDashboardState({selectedRegion: "Europe"})] completes, sets
    [selectedRegion] to ["Europe"], resets [selectedIndustry] to ["all"]
    (the cascade of the region) and leaves every other field as it was. *)
Theorem region_update_frame (st : Store) (source_ : option string) (clock : Clock) :
  ∃ st',
    updateDashboardState {["selectedRegion" := "Europe"]} source_ clock st = (Normal tt, st') ∧
    dashboardState st' !! "selectedRegion" = Some "Europe" ∧
    dashboardState st' !! "selectedIndustry" = Some "all" ∧
    ∀ field : string,
      field ≠ "selectedRegion" → field ≠ "selectedIndustry" →
      dashboardState st' !! field = dashboardState st !! field.
Proof.
  rewrite updateDashboardState_eq. eexists. split; [ reflexivity | ].
  cbn [dashboardState]. rewrite resolveDependencies_region.
  split; [ | split ].
  - apply lookup_union_Some_l. by rewrite lookup_insert_ne, lookup_singleton_eq.
  - apply lookup_union_Some_l. by rewrite lookup_insert_eq.
  - intros field Hr Hi. rewrite lookup_union_r; [ reflexivity | ].
    by rewrite lookup_insert_ne, lookup_singleton_ne.
Qed.

(** ** Undo and redo *)

(** C3, on the code: with a listener registered, which the two updates
    made before have each notified, an undo and then a redo both move
    the position and change the state, and neither adds anything to the
    trace: no callback is invoked with the recomputed state. *)
Lemma undo_redo_invoke_no_callback :
  (callbacks listening).*1 = ["chart"] ∧
  length (invocations (trace listening)) = 2%nat ∧
  dashboardState listening !! "selectedRevenueType" = Some "usage" ∧
  dashboardState (exec undo listening) !! "selectedRevenueType" = Some "subscription" ∧
  dashboardState (exec redo (exec undo listening)) !! "selectedRevenueType" = Some "usage" ∧
  currentHistoryIndex listening = 1 ∧
  undo listening = (Normal tt, exec undo listening) ∧
  currentHistoryIndex (exec undo listening) = 0 ∧
  trace (exec undo listening) = trace listening ∧
  redo (exec undo listening) = (Normal tt, exec redo (exec undo listening)) ∧
  currentHistoryIndex (exec redo (exec undo listening)) = 1 ∧
  trace (exec redo (exec undo listening)) = trace listening.
Proof. evaluate. Qed.

(** On every store, an undo and a redo leave the trace, the log and the
    registry as they were: they create no transaction and add no event.
    They run no cascade resolution either: where undo moves the position,
    the new state is the replay of the recorded updates through the new
    position, and where redo moves it, the new state is the current one
    merged with the recorded updates of the next transaction. *)
Theorem undo_redo_silent (st : Store) :
  (trace (exec undo st) = trace st ∧
   getStateHistory (exec undo st) = getStateHistory st ∧
   callbacks (exec undo st) = callbacks st) ∧
  (trace (exec redo st) = trace st ∧
   getStateHistory (exec redo st) = getStateHistory st ∧
   callbacks (exec redo st) = callbacks st) ∧
  (canUndo st = true →
   currentHistoryIndex st ≤ Z.of_nat (length (stateHistory st)) →
   currentHistoryIndex (exec undo st) = currentHistoryIndex st - 1 ∧
   dashboardState (exec undo st)
   = full_replay (stateHistory st) (currentHistoryIndex st - 1)) ∧
  (∀ transaction,
     canRedo st = true →
     array_get (stateHistory st) (currentHistoryIndex st + 1) = Some transaction →
     currentHistoryIndex (exec redo st) = currentHistoryIndex st + 1 ∧
     dashboardState (exec redo st) = updates transaction ∪ dashboardState st).
Proof.
  split; [ | split; [ | split ] ].
  - unfold exec, undo, bind, gets, lift.
    destruct (canUndo st); [ | done ].
    by destruct (reconstruct (stateHistory st) (currentHistoryIndex st - 1)).
  - unfold exec, redo, bind, gets.
    destruct (canRedo st); [ | done ].
    by destruct (array_get (stateHistory st) (currentHistoryIndex st + 1)).
  - intros Hcan Hlen. unfold exec. by rewrite undo_eq.
  - intros transaction Hcan Htx. unfold exec. by rewrite (redo_eq st transaction).
Qed.

Lemma undo_redo_silent_witness :
  (currentHistoryIndex (exec undo listening) = currentHistoryIndex listening - 1 ∧
   dashboardState (exec undo listening)
   = full_replay (stateHistory listening) (currentHistoryIndex listening - 1)) ∧
  (currentHistoryIndex (exec redo afterUndo) = currentHistoryIndex afterUndo + 1 ∧
   dashboardState (exec redo afterUndo)
   = resolveDependencies (call_updates toUsage) ∪ dashboardState afterUndo).
Proof.
  split.
  - apply (proj1 (proj2 (proj2 (undo_redo_silent listening)))).
    + vm_compute. reflexivity.
    + vm_compute. discriminate.
  - apply (proj2 (proj2 (proj2 (undo_redo_silent afterUndo)))
             (mkTransaction (generateTransactionId clock0) (now_ts clock0)
                            (resolveDependencies (call_updates toUsage)) (Some "test"))).
    + vm_compute. reflexivity.
    + vm_compute. reflexivity.
Defined.

(** *** Redo against the full replay *)

Lemma saveState_eq (name : string) (st : Store) :
  ∃ st', saveState name st = (Normal tt, st') ∧
         dashboardState st' = dashboardState st ∧
         stateHistory st' = stateHistory st ∧
         currentHistoryIndex st' = currentHistoryIndex st.
Proof.
  unfold saveState, bind, gets, modify, try_catch, localStorage_setItem.
  cbn [storageFull setSavedStates dashboardState].
  destruct (storageFull st); eexists; (split; [ reflexivity | by repeat split ]).
Qed.

(** The logged actions always complete and keep the replay invariant. *)
Lemma perform_logged (a : action) (st : Store) :
  logged a = true → consistent st →
  ∃ st', perform a st = (Normal tt, st') ∧ consistent st'.
Proof.
  intros Hl Hc. destruct a as [c| | |clock|name|name|cb_id callback|cb_id| ];
    try discriminate; cbn [perform].
  - exists (exec (update c) st). split; [ apply update_Normal | by apply update_consistent ].
  - exists (exec undo st). split; [ by apply undo_Normal | by apply undo_consistent ].
  - exists (exec redo st). split; [ by apply redo_Normal | by apply redo_consistent ].
  - destruct (saveState_eq name st) as (st' & Hrun & Hs & Hh & Hi).
    exists st'. split; [ done | ]. unfold consistent. by rewrite Hs, Hh, Hi.
  - eexists. split; [ reflexivity | done ].
  - eexists. split; [ reflexivity | done ].
Qed.

Lemma run_logged (actions : list action) (st : Store) :
  forallb logged actions = true → consistent st →
  ∃ st', run actions st = (Normal tt, st') ∧ consistent st'.
Proof.
  revert st. induction actions as [|a actions IH]; intros st Hl Hc.
  - by exists st.
  - cbn [forallb] in Hl. apply andb_true_iff in Hl as [Ha Hl].
    destruct (perform_logged a st Ha Hc) as (s1 & Hrun1 & Hc1).
    destruct (IH s1 Hl Hc1) as (st' & Hrun & Hc').
    exists st'. split; [ | done ].
    unfold run. cbn [forEach]. by rewrite (bind_Normal _ _ _ _ _ Hrun1).
Qed.

(** C4, as stated, fails: after a snapshot is loaded the current state is
    not the replay of the log, and the redo that merges the next
    transaction onto it differs from the full replay. *)
Lemma redo_after_load_is_not_replay :
  run [SaveState "default"; UpdateDashboardState toSixMonths;
       UpdateDashboardState toUsage; Undo; LoadState "default"]
      (initialStore ∅ false) = (Normal tt, afterLoad) ∧
  canRedo afterLoad = true ∧
  redo afterLoad = (Normal tt, exec redo afterLoad) ∧
  dashboardState (exec redo afterLoad) !! "selectedTimeRange" = Some "1Y" ∧
  full_replay (stateHistory afterLoad) (currentHistoryIndex afterLoad + 1)
    !! "selectedTimeRange" = Some "6M" ∧
  dashboardState (exec redo afterLoad)
  ≠ full_replay (stateHistory afterLoad) (currentHistoryIndex afterLoad + 1).
Proof.
  evaluate.
  intros H. apply (f_equal (fun m : gmap string string => m !! "selectedTimeRange")) in H.
  vm_compute in H. discriminate.
Qed.

Lemma resetToDefault_eq (clock : Clock) (st : Store) :
  resetToDefault clock st =
    (Normal tt,
     mkStore initialDashboardState (callbacks st)
             (stateHistory st ++
                [mkTransaction (generateTransactionId clock) (now_ts clock)
                               initialDashboardState (Some "reset")])
             (currentHistoryIndex st + 1)
             (savedStates st) (localStorage st) (storageFull st) (trace st)).
Proof. reflexivity. Qed.

Lemma loadState_outcome (name : string) (st : Store) :
  ∃ st',
    loadState name st = (Normal (finds name st), st') ∧
    stateHistory st' = stateHistory st ∧
    currentHistoryIndex st' = currentHistoryIndex st ∧
    (finds name st = false → dashboardState st' = dashboardState st).
Proof.
  unfold finds, outcome, loadState, bind, gets. cbn [savedStates].
  destruct (savedStates st !! name) as [memoryState|].
  - eexists. split; [ reflexivity | ]. by repeat split.
  - unfold try_catch, localStorage_getItem, bind, gets.
    destruct (localStorage st !! storage_key name) as [[ | parsed | raw ]|];
      (eexists; split; [ reflexivity | by repeat split ]).
Qed.

Lemma perform_redoable (a : action) (stale : bool) (st : Store) :
  redoable stale st →
  ∃ st', perform a st = (Normal tt, st') ∧ redoable (stale_after a st stale) st'.
Proof.
  intros [Hpos Hstate].
  destruct a as [c| | |clock|name|name|cb_id callback|cb_id| ];
    cbn [perform stale_after].
  - exists (exec (update c) st). split; [ apply update_Normal | ].
    destruct (update_position c st Hpos) as [Hi Hl]. split; [ lia | ].
    intros _ Hcan. apply canRedo_true in Hcan. lia.
  - exists (exec undo st). unfold exec. destruct (canUndo st) eqn:Hcan.
    + rewrite undo_eq by (done || lia). apply canUndo_true in Hcan.
      split; [ reflexivity | ]. split; [ simpl; lia | intros _ _; reflexivity ].
    + rewrite undo_noop by done. split; [ reflexivity | by split ].
  - exists (exec redo st). unfold exec. destruct (canRedo st) eqn:Hcan.
    + pose proof (proj1 (canRedo_true st) Hcan) as Hlt.
      destruct (array_get_in_range (stateHistory st) (currentHistoryIndex st + 1))
        as [transaction Htx]; [ lia | ].
      rewrite (redo_eq st transaction) by done.
      split; [ reflexivity | ]. split; [ simpl; lia | ]. intros Hfresh _.
      cbn [snd setCurrentHistoryIndex setDashboardState dashboardState stateHistory
           currentHistoryIndex].
      rewrite (full_replay_next _ _ transaction) by (done || lia).
      by rewrite (Hstate Hfresh eq_refl) at 1.
    + rewrite redo_noop by done. split; [ reflexivity | ]. split; [ done | ].
      cbn [snd]. intros _ H. congruence.
  - rewrite resetToDefault_eq. eexists. split; [ reflexivity | ]. split.
    + cbn [stateHistory currentHistoryIndex]. rewrite length_app. simpl. lia.
    + discriminate.
  - destruct (saveState_eq name st) as (st' & Hrun & Hs & Hh & Hi).
    exists st'. split; [ done | ]. unfold redoable, canRedo. by rewrite Hs, Hh, Hi.
  - destruct (loadState_outcome name st) as (st' & Hrun & Hh & Hi & Hs).
    exists st'. split; [ by rewrite (bind_Normal _ _ _ _ _ Hrun) | ].
    unfold redoable, canRedo. rewrite Hh, Hi. split; [ done | ].
    intros Hfresh Hcan. apply orb_false_iff in Hfresh as [-> Hnone].
    rewrite (Hs Hnone). by apply Hstate.
  - eexists. split; [ reflexivity | ]. by split.
  - eexists. split; [ reflexivity | ]. by split.
  - eexists. split; [ reflexivity | ]. split; [ done | discriminate ].
Qed.

(** Every run of calls, each made from the latest render, completes. *)
Lemma run_redoable (actions : list action) (stale : bool) (st : Store) :
  redoable stale st →
  ∃ st', run actions st = (Normal tt, st') ∧
         redoable (stale_at_end actions st stale) st'.
Proof.
  revert stale st. induction actions as [|a actions IH]; intros stale st Hinv.
  - by exists st.
  - destruct (perform_redoable a stale st Hinv) as (s1 & Hrun1 & Hinv1).
    cbn [stale_at_end]. rewrite (exec_Normal _ _ _ _ Hrun1).
    destruct (IH _ s1 Hinv1) as (st' & Hrun & Hinv').
    exists st'. split; [ | done ].
    unfold run. cbn [forEach]. by rewrite (bind_Normal _ _ _ _ _ Hrun1).
Qed.

(** C4, amended: for every store reached from the initial history state
    by calls made one after the other, each from the latest render, such
    that no [resetToDefault], no [clearData] and no [loadState] that
    found a snapshot has been made since the last [updateDashboardState]
    or the last undo that moved the position, a redo that is possible
    completes, and the state it produces by merging the recorded updates
    of the next transaction onto the current state is exactly the full
    replay of the log from the default state through the new position. *)
Theorem redo_is_replay (actions : list action) (st0 st : Store) :
  pristine st0 →
  stale_at_end actions st0 false = false →
  run actions st0 = (Normal tt, st) →
  canRedo st = true →
  ∃ st' transaction,
    array_get (stateHistory st) (currentHistoryIndex st + 1) = Some transaction ∧
    redo st = (Normal tt, st') ∧
    currentHistoryIndex st' = currentHistoryIndex st + 1 ∧
    dashboardState st' = updates transaction ∪ dashboardState st ∧
    dashboardState st' = full_replay (stateHistory st) (currentHistoryIndex st').
Proof.
  intros Hp Hfresh Hrun Hcan.
  assert (Hinv0 : redoable false st0).
  { destruct (pristine_consistent st0 Hp) as [? ?]. by split. }
  destruct (run_redoable actions false st0 Hinv0) as (s & Hrun' & Hinv).
  rewrite Hrun in Hrun'. injection Hrun' as <-.
  pose proof (proj1 (canRedo_true st) Hcan) as Hlt. destruct Hinv as [Hpos Hstate].
  destruct (array_get_in_range (stateHistory st) (currentHistoryIndex st + 1))
    as [transaction Htx]; [ lia | ].
  eexists _, transaction. split; [ done | ]. split; [ by apply redo_eq | ].
  cbn [setCurrentHistoryIndex setDashboardState currentHistoryIndex dashboardState].
  split; [ done | ]. split; [ done | ].
  rewrite (full_replay_next _ _ transaction) by (done || lia).
  by rewrite (Hstate Hfresh Hcan) at 1.
Qed.

Lemma redo_is_replay_witness :
  ∃ st' transaction,
    array_get (stateHistory afterResetUndo) (currentHistoryIndex afterResetUndo + 1)
    = Some transaction ∧
    redo afterResetUndo = (Normal tt, st') ∧
    currentHistoryIndex st' = currentHistoryIndex afterResetUndo + 1 ∧
    dashboardState st' = updates transaction ∪ dashboardState afterResetUndo ∧
    dashboardState st'
    = full_replay (stateHistory afterResetUndo) (currentHistoryIndex st').
Proof.
  apply (redo_is_replay
           [SaveState "default"; UpdateDashboardState toSixMonths;
            LoadState "default"; ResetToDefault clock0;
            UpdateDashboardState toUsage; Undo]
           (initialStore ∅ false) afterResetUndo).
  - apply initialStore_pristine.
  - vm_compute. reflexivity.
  - vm_compute. reflexivity.
  - vm_compute. reflexivity.
Defined.

(** *** The first transaction *)

(** C1, on the code: after one update made on the initial store [canUndo]
    is false and [undo] changes nothing, so the region stays ["Europe"]
    and the initial default state is not restored. *)
Theorem first_update_cannot_be_undone :
  update toEurope (initialStore ∅ false) = (Normal tt, afterOneUpdate) ∧
  currentHistoryIndex afterOneUpdate = 0 ∧
  length (getStateHistory afterOneUpdate) = 1%nat ∧
  canUndo afterOneUpdate = false ∧
  undo afterOneUpdate = (Normal tt, afterOneUpdate) ∧
  dashboardState afterOneUpdate !! "selectedRegion" = Some "Europe" ∧
  initialDashboardState !! "selectedRegion" = Some "all".
Proof. evaluate. Qed.

(** *** Reset *)

(** C2, on the code: after two updates and one undo the position is on
    the first transaction; [resetToDefault] then appends the reset
    transaction without dropping the undone one, and the position moves
    to the undone transaction, not to the reset one.  On the same store
    [updateDashboardState] drops the undone transaction before it
    appends. *)
Theorem resetToDefault_does_not_truncate :
  currentHistoryIndex afterUndo = 0 ∧
  length (getStateHistory afterUndo) = 2%nat ∧
  resetToDefault clock0 afterUndo = (Normal tt, exec (resetToDefault clock0) afterUndo) ∧
  dashboardState (exec (resetToDefault clock0) afterUndo) = initialDashboardState ∧
  source <$> getStateHistory (exec (resetToDefault clock0) afterUndo)
  = [Some "test"; Some "test"; Some "reset"] ∧
  currentHistoryIndex (exec (resetToDefault clock0) afterUndo) = 1 ∧
  source <$> array_get (getStateHistory (exec (resetToDefault clock0) afterUndo)) 1
  = Some (Some "test") ∧
  canRedo (exec (resetToDefault clock0) afterUndo) = true ∧
  length (getStateHistory (exec (update toEurope) afterUndo)) = 2%nat ∧
  currentHistoryIndex (exec (update toEurope) afterUndo) = 1 ∧
  canRedo (exec (update toEurope) afterUndo) = false.
Proof. evaluate. Qed.

(** * Further properties of the hook *)

(** The replay invariant of a closed store, by evaluation. *)
Ltac consistent_by_evaluation :=
  split;
  [ split; vm_compute; (reflexivity || (intros ?; discriminate))
  | vm_compute; reflexivity ].


(** ** Cascade resolution, continued *)

(** The resolved updates, field by field: the dependent of a trigger that
    is present is reset, even where the caller gave it a value of its
    own; every other field is as the caller gave it. *)
Theorem resolveDependencies_lookup (updates_ : gmap string string) (field : string) :
  resolveDependencies updates_ !! field =
    if decide (field = "selectedIndustry" ∧ is_Some (updates_ !! "selectedRegion"))
    then Some "all"
    else if decide (field = "selectedMetric" ∧ is_Some (updates_ !! "selectedDepartment"))
    then Some "revenue"
    else updates_ !! field.
Proof.
  rewrite resolveDependencies_spec. unfold cascade.
  repeat case_bool_decide; repeat case_decide; destruct_and?; simplify_map_eq; try done.
  all: try (exfalso; naive_solver).
  all: repeat match goal with
         | |- context [ <[?k := _]> _ !! ?j ] =>
             destruct (decide (k = j)); simplify_map_eq; try done
         end; exfalso; naive_solver.
Qed.

Lemma cascade_triggers (r d : bool) (m : gmap string string) :
  cascade r d m !! "selectedRegion" = m !! "selectedRegion" ∧
  cascade r d m !! "selectedDepartment" = m !! "selectedDepartment".
Proof. unfold cascade. destruct r, d; by simplify_map_eq. Qed.

Lemma cascade_cascade (r d : bool) (m : gmap string string) :
  cascade r d (cascade r d m) = cascade r d m.
Proof.
  unfold cascade. destruct r, d; try done.
  - rewrite (insert_insert_ne _ "selectedMetric" "selectedIndustry") by discriminate.
    by rewrite !insert_insert_eq.
  - by rewrite insert_insert_eq.
  - by rewrite insert_insert_eq.
Qed.

(** Cascade resolution is single-pass: the resets it makes trigger no
    further reset, so resolving resolved updates changes nothing. *)
Theorem resolveDependencies_idempotent (updates_ : gmap string string) :
  resolveDependencies (resolveDependencies updates_) = resolveDependencies updates_.
Proof.
  rewrite (resolveDependencies_spec (resolveDependencies updates_)).
  rewrite (resolveDependencies_spec updates_).
  destruct (cascade_triggers
              (bool_decide (is_Some (updates_ !! "selectedRegion")))
              (bool_decide (is_Some (updates_ !! "selectedDepartment"))) updates_)
    as [-> ->].
  apply cascade_cascade.
Qed.

Lemma lastTransaction_update (updates_ : gmap string string) (source_ : option string)
    (clock : Clock) (st : Store) :
  lastTransaction (exec (updateDashboardState updates_ source_ clock) st)
  = Some (mkTransaction (generateTransactionId clock) (now_ts clock)
                        (resolveDependencies updates_) source_).
Proof.
  unfold exec, lastTransaction. rewrite updateDashboardState_eq.
  cbn [snd stateHistory]. apply last_snoc.
Qed.

(** An update whose fields include [selectedRegion] leaves
    [selectedIndustry] at ["all"], in the new state and in the recorded
    transaction, whatever the previous state and whatever value the
    caller gave for the industry; the region itself is as given. *)
Theorem region_update_resets_industry_always (updates_ : gmap string string)
    (source_ : option string) (clock : Clock) (st : Store) (value : string) :
  updates_ !! "selectedRegion" = Some value →
  ∃ st' transaction,
    updateDashboardState updates_ source_ clock st = (Normal tt, st') ∧
    lastTransaction st' = Some transaction ∧
    updates transaction !! "selectedIndustry" = Some "all" ∧
    updates transaction !! "selectedRegion" = Some value ∧
    dashboardState st' !! "selectedIndustry" = Some "all" ∧
    dashboardState st' !! "selectedRegion" = Some value.
Proof.
  intros Hregion.
  pose proof (lastTransaction_update updates_ source_ clock st) as Hlast.
  unfold exec in Hlast. rewrite updateDashboardState_eq in Hlast |- *.
  eexists _, _. split; [ reflexivity | ]. split; [ exact Hlast | ].
  cbn [updates dashboardState].
  assert (Hi : resolveDependencies updates_ !! "selectedIndustry" = Some "all").
  { rewrite resolveDependencies_spec. unfold cascade.
    rewrite bool_decide_eq_true_2 by (rewrite Hregion; eauto).
    by rewrite lookup_insert_eq. }
  assert (Hr : resolveDependencies updates_ !! "selectedRegion" = Some value).
  { rewrite resolveDependencies_spec.
    by rewrite (proj1 (cascade_triggers _ _ _)). }
  repeat split; try done; by apply lookup_union_Some_l.
Qed.

Lemma region_update_resets_industry_always_witness :
  ∃ st' transaction,
    updateDashboardState
      (<["selectedIndustry" := "Technology"]> {["selectedRegion" := "Europe"]})
      (Some "test") clock0 technologyChosen = (Normal tt, st') ∧
    lastTransaction st' = Some transaction ∧
    updates transaction !! "selectedIndustry" = Some "all" ∧
    updates transaction !! "selectedRegion" = Some "Europe" ∧
    dashboardState st' !! "selectedIndustry" = Some "all" ∧
    dashboardState st' !! "selectedRegion" = Some "Europe".
Proof.
  apply (region_update_resets_industry_always
           (<["selectedIndustry" := "Technology"]> {["selectedRegion" := "Europe"]})
           (Some "test") clock0 technologyChosen "Europe").
  vm_compute. reflexivity.
Defined.

(** ** Notification, continued *)




(** ** The transaction log, continued *)

(** Every run of logged operations made one after the other, each from
    the latest render, from the initial history state completes without
    an exception and ends in a store whose position is before the first
    entry or on an entry of the log, and whose state is the replay of the
    log through the position.  (Updates made by one event handler are not
    such a run.) *)
Theorem logged_runs_keep_replay_invariant (actions : list action) (st0 : Store) :
  pristine st0 →
  forallb logged actions = true →
  ∃ st,
    run actions st0 = (Normal tt, st) ∧
    -1 ≤ currentHistoryIndex st < Z.of_nat (length (stateHistory st)) ∧
    dashboardState st = full_replay (stateHistory st) (currentHistoryIndex st).
Proof.
  intros Hp Hl.
  destruct (run_logged actions st0 Hl (pristine_consistent st0 Hp)) as (st & Hrun & Hc).
  by exists st.
Qed.

Lemma logged_runs_keep_replay_invariant_witness :
  ∃ st,
    run [RegisterCallback "chart" faulty; UpdateDashboardState toSixMonths;
         SaveState "six"; UpdateDashboardState toEurope; Undo; Undo; Redo;
         UnregisterCallback "chart"; UpdateDashboardState toUsage; Redo]
        (initialStore ∅ true) = (Normal tt, st) ∧
    -1 ≤ currentHistoryIndex st < Z.of_nat (length (stateHistory st)) ∧
    dashboardState st = full_replay (stateHistory st) (currentHistoryIndex st).
Proof.
  apply (logged_runs_keep_replay_invariant
           [RegisterCallback "chart" faulty; UpdateDashboardState toSixMonths;
            SaveState "six"; UpdateDashboardState toEurope; Undo; Undo; Redo;
            UnregisterCallback "chart"; UpdateDashboardState toUsage; Redo]
           (initialStore ∅ true)).
  - apply initialStore_pristine.
  - reflexivity.
Defined.

(** On a store that satisfies the replay invariant, an undo that is
    possible followed by a redo gives back the very same store. *)
Theorem undo_then_redo (st : Store) :
  consistent st →
  canUndo st = true →
  (undo ;; redo) st = (Normal tt, st).
Proof.
  intros [Hpos Hstate] Hcan. pose proof (proj1 (canUndo_true st) Hcan) as Hlt.
  rewrite (bind_Normal _ _ _ _ _ (undo_eq st Hcan ltac:(lia))).
  destruct (array_get_in_range (stateHistory st) (currentHistoryIndex st))
    as [transaction Htx]; [ lia | ].
  rewrite (redo_eq _ transaction).
  - cbn [setCurrentHistoryIndex setDashboardState dashboardState callbacks stateHistory
         currentHistoryIndex savedStates localStorage storageFull trace].
    f_equal. destruct st as [state cbs history index saved storage full tr].
    unfold setCurrentHistoryIndex, setDashboardState.
    cbn [dashboardState callbacks stateHistory currentHistoryIndex savedStates
         localStorage storageFull trace] in *.
    f_equal; [ | lia ].
    rewrite Hstate.
    replace index with (index - 1 + 1) at 2 by lia.
    symmetry. apply full_replay_next; [ lia | ].
    by replace (index - 1 + 1) with index by lia.
  - apply canRedo_true. simpl. lia.
  - simpl. by replace (currentHistoryIndex st - 1 + 1) with (currentHistoryIndex st) by lia.
Qed.

Lemma undo_then_redo_witness : (undo ;; redo) listening = (Normal tt, listening).
Proof.
  apply (undo_then_redo listening).
  - consistent_by_evaluation.
  - vm_compute. reflexivity.
Defined.

(** On a store that satisfies the replay invariant and whose position is
    on an entry, a redo that is possible followed by an undo gives back
    the very same store. *)
Theorem redo_then_undo (st : Store) :
  consistent st →
  0 ≤ currentHistoryIndex st →
  canRedo st = true →
  (redo ;; undo) st = (Normal tt, st).
Proof.
  intros [Hpos Hstate] Hnonneg Hcan. pose proof (proj1 (canRedo_true st) Hcan) as Hlt.
  destruct (array_get_in_range (stateHistory st) (currentHistoryIndex st + 1))
    as [transaction Htx]; [ lia | ].
  rewrite (bind_Normal _ _ _ _ _ (redo_eq st transaction Hcan Htx)).
  rewrite undo_eq.
  - cbn [setCurrentHistoryIndex setDashboardState dashboardState callbacks stateHistory
         currentHistoryIndex savedStates localStorage storageFull trace].
    f_equal. destruct st as [state cbs history index saved storage full tr].
    unfold setCurrentHistoryIndex, setDashboardState.
    cbn [dashboardState callbacks stateHistory currentHistoryIndex savedStates
         localStorage storageFull trace] in *.
    f_equal; [ | lia ].
    rewrite Hstate. f_equal. lia.
  - apply canUndo_true. simpl. lia.
  - simpl. lia.
Qed.

Lemma redo_then_undo_witness : (redo ;; undo) afterUndo = (Normal tt, afterUndo).
Proof.
  apply (redo_then_undo afterUndo).
  - consistent_by_evaluation.
  - vm_compute. intros ?. discriminate.
  - vm_compute. reflexivity.
Defined.

(** [canUndo] and [canRedo] tell what [undo] and [redo] do: on a store
    that satisfies the replay invariant, [undo] leaves the store as it is
    exactly when [canUndo] is false, and [redo] exactly when [canRedo] is
    false. *)
Theorem canUndo_canRedo_agree (st : Store) :
  consistent st →
  (canUndo st = false ↔ exec undo st = st) ∧
  (canRedo st = false ↔ exec redo st = st).
Proof.
  intros Hc. split; split.
  - intros H. unfold exec. by rewrite undo_noop.
  - intros H. destruct (undo_position st Hc) as [_ Hi]. rewrite H in Hi.
    unfold canUndo. apply Z.ltb_ge. lia.
  - intros H. unfold exec. by rewrite redo_noop.
  - intros H. destruct (redo_position st Hc) as [_ Hi]. rewrite H in Hi.
    unfold canRedo. apply Z.ltb_ge. lia.
Qed.

Lemma canUndo_canRedo_agree_witness :
  (canUndo afterUndo = false ↔ exec undo afterUndo = afterUndo) ∧
  (canRedo afterUndo = false ↔ exec redo afterUndo = afterUndo).
Proof.
  apply (canUndo_canRedo_agree afterUndo).
  consistent_by_evaluation.
Defined.

(** Undo never goes back past the first transaction: from a position on
    an entry of the log, [k] undos in a row complete and leave the
    position at [max 0 (position - k)], with the state replayed through
    it; the updates of the first transaction are never undone. *)
Theorem undo_stops_at_first_transaction (k : nat) (st : Store) :
  consistent st →
  0 ≤ currentHistoryIndex st →
  ∃ st',
    times k undo st = (Normal tt, st') ∧
    getStateHistory st' = getStateHistory st ∧
    currentHistoryIndex st' = Z.max 0 (currentHistoryIndex st - Z.of_nat k) ∧
    dashboardState st'
    = full_replay (stateHistory st) (Z.max 0 (currentHistoryIndex st - Z.of_nat k)).
Proof.
  intros Hc Hpos.
  destruct (undo_times k st Hc) as (st' & Hrun & [_ Hstate] & Hh & Hi).
  exists st'. split; [ done | ]. split; [ done | ].
  assert (currentHistoryIndex st'
          = Z.max 0 (currentHistoryIndex st - Z.of_nat k)) as Hi' by lia.
  split; [ done | ]. by rewrite Hstate, Hh, Hi'.
Qed.

Lemma undo_stops_at_first_transaction_witness :
  ∃ st',
    times 5 undo listening = (Normal tt, st') ∧
    getStateHistory st' = getStateHistory listening ∧
    currentHistoryIndex st' = Z.max 0 (currentHistoryIndex listening - Z.of_nat 5) ∧
    dashboardState st'
    = full_replay (stateHistory listening)
                  (Z.max 0 (currentHistoryIndex listening - Z.of_nat 5)).
Proof.
  apply (undo_stops_at_first_transaction 5 listening).
  - consistent_by_evaluation.
  - vm_compute. intros ?. discriminate.
Defined.

Lemma full_replay_app (history later : list StateTransaction) (pos : Z) :
  pos < Z.of_nat (length history) →
  full_replay (history ++ later) pos = full_replay history pos.
Proof.
  intros H. unfold full_replay. f_equal.
  destruct (Z.le_gt_cases 0 (pos + 1)).
  - apply take_app_le. lia.
  - replace (Z.to_nat (pos + 1)) with O by lia. by rewrite !take_0.
Qed.

(** A reset made at the end of the log is an ordinary, undo-able entry:
    the state becomes the default one, the appended transaction is tagged
    ["reset"] and is the one the position designates, and an undo brings
    back the state of before the reset. *)
Theorem reset_then_undo_restores (clock : Clock) (st : Store) :
  consistent st →
  currentHistoryIndex st = Z.of_nat (length (stateHistory st)) - 1 →
  ∃ st1 st2,
    resetToDefault clock st = (Normal tt, st1) ∧
    dashboardState st1 = initialDashboardState ∧
    source <$> lastTransaction st1 = Some (Some "reset") ∧
    source <$> array_get (stateHistory st1) (currentHistoryIndex st1) = Some (Some "reset") ∧
    undo st1 = (Normal tt, st2) ∧
    dashboardState st2 = dashboardState st.
Proof.
  intros [Hpos Hstate] Hend. rewrite resetToDefault_eq.
  set (st1 := mkStore _ _ _ _ _ _ _ _).
  assert (Hlast : source <$> lastTransaction st1 = Some (Some "reset")).
  { unfold lastTransaction, st1. cbn [stateHistory]. by rewrite last_snoc. }
  assert (Hat : source <$> array_get (stateHistory st1) (currentHistoryIndex st1)
                = Some (Some "reset")).
  { unfold array_get, st1. cbn [stateHistory currentHistoryIndex].
    destruct (Z.ltb_spec (currentHistoryIndex st + 1) 0); [ lia | ].
    rewrite lookup_app_r by lia.
    replace (Z.to_nat (currentHistoryIndex st + 1) - length (stateHistory st))%nat
      with O by lia.
    reflexivity. }
  assert (Hundo : ∃ st2, undo st1 = (Normal tt, st2) ∧
                         dashboardState st2 = dashboardState st).
  { destruct (decide (currentHistoryIndex st = -1)) as [Hfresh|Hentry].
    - exists st1. split.
      + apply undo_noop. unfold canUndo, st1. cbn [currentHistoryIndex].
        apply Z.ltb_ge. lia.
      + unfold st1. cbn [dashboardState]. rewrite Hstate, Hfresh. reflexivity.
    - eexists. split.
      + apply undo_eq.
        * apply canUndo_true. unfold st1. cbn [currentHistoryIndex]. lia.
        * unfold st1. cbn [stateHistory currentHistoryIndex]. rewrite length_app. simpl. lia.
      + unfold st1. cbn [dashboardState stateHistory currentHistoryIndex
                         setCurrentHistoryIndex setDashboardState].
        rewrite Hstate.
        replace (currentHistoryIndex st + 1 - 1) with (currentHistoryIndex st) by lia.
        apply full_replay_app. lia. }
  destruct Hundo as (st2 & Hundo & Hback).
  exists st1, st2. by repeat split.
Qed.

Lemma reset_then_undo_restores_witness :
  ∃ st1 st2,
    resetToDefault clock0 listening = (Normal tt, st1) ∧
    dashboardState st1 = initialDashboardState ∧
    source <$> lastTransaction st1 = Some (Some "reset") ∧
    source <$> array_get (stateHistory st1) (currentHistoryIndex st1) = Some (Some "reset") ∧
    undo st1 = (Normal tt, st2) ∧
    dashboardState st2 = dashboardState listening.
Proof.
  apply (reset_then_undo_restores clock0 listening).
  - consistent_by_evaluation.
  - vm_compute. reflexivity.
Defined.

Lemma loadState_cases (name : string) (st : Store) :
  ∃ found st',
    loadState name st = (Normal found, st') ∧
    stateHistory st' = stateHistory st ∧
    currentHistoryIndex st' = currentHistoryIndex st ∧
    callbacks st' = callbacks st ∧
    savedStates st' = savedStates st ∧
    localStorage st' = localStorage st.
Proof.
  unfold loadState, bind, gets. cbn [savedStates].
  destruct (savedStates st !! name) as [memoryState|].
  - by eexists _, _.
  - unfold try_catch, localStorage_getItem, bind, gets.
    destruct (localStorage st !! storage_key name) as [[ | parsed | raw ]|];
      by eexists _, _.
Qed.

(** The states that [loadState] and [clearData] install are not part of
    the log: an undo that follows recomputes the state from the log alone
    and lands exactly where it would have landed without them. *)
Theorem undo_discards_unlogged_state (name : string) (st : Store) :
  consistent st →
  canUndo st = true →
  (∃ st', (loadState name ;; undo) st = (Normal tt, st') ∧
          dashboardState st' = dashboardState (exec undo st) ∧
          currentHistoryIndex st' = currentHistoryIndex st - 1) ∧
  (∃ st', (clearData ;; undo) st = (Normal tt, st') ∧
          dashboardState st' = dashboardState (exec undo st) ∧
          currentHistoryIndex st' = currentHistoryIndex st - 1).
Proof.
  intros [Hpos _] Hcan. pose proof (proj1 (canUndo_true st) Hcan) as Hlt.
  assert (Hu : dashboardState (exec undo st)
               = full_replay (stateHistory st) (currentHistoryIndex st - 1)).
  { unfold exec. by rewrite (undo_eq st Hcan) by lia. }
  rewrite Hu. split.
  - destruct (loadState_cases name st) as (found & s1 & Hload & Hh & Hi & _).
    rewrite (bind_Normal _ _ _ _ _ Hload).
    rewrite undo_eq.
    + eexists. split; [ reflexivity | ]. cbn [dashboardState currentHistoryIndex
        setCurrentHistoryIndex setDashboardState]. by rewrite Hh, Hi.
    + apply canUndo_true. lia.
    + rewrite Hh, Hi. lia.
  - unfold clearData. unfold bind at 1, modify at 1.
    rewrite undo_eq.
    + eexists. split; [ reflexivity | ]. split; reflexivity.
    + exact Hcan.
    + cbn [stateHistory currentHistoryIndex setDashboardState]. lia.
Qed.

Lemma undo_discards_unlogged_state_witness :
  finds "default" savedThenUpdated = true ∧
  (∃ st', (loadState "default" ;; undo) savedThenUpdated = (Normal tt, st') ∧
          dashboardState st' = dashboardState (exec undo savedThenUpdated) ∧
          currentHistoryIndex st' = currentHistoryIndex savedThenUpdated - 1) ∧
  (∃ st', (clearData ;; undo) savedThenUpdated = (Normal tt, st') ∧
          dashboardState st' = dashboardState (exec undo savedThenUpdated) ∧
          currentHistoryIndex st' = currentHistoryIndex savedThenUpdated - 1).
Proof.
  split; [ vm_compute; reflexivity | ].
  apply (undo_discards_unlogged_state "default" savedThenUpdated).
  - consistent_by_evaluation.
  - vm_compute. reflexivity.
Defined.

(** ** The callback registry *)

Lemma Map_set_fst {V} (key : string) (v : V) (m : list (string * V)) :
  (Map_set key v m).*1 = if decide (key ∈ m.*1) then m.*1 else m.*1 ++ [key].
Proof.
  induction m as [|[k w] rest IH].
  - cbn [Map_set fmap list_fmap fst]. rewrite decide_False by apply not_elem_of_nil. reflexivity.
  - cbn [Map_set]. destruct (decide (k = key)) as [->|Hne].
    + cbn [fmap list_fmap fst]. rewrite decide_True by apply list_elem_of_here. reflexivity.
    + cbn [fmap list_fmap fst]. fold (rest.*1). fold ((Map_set key v rest).*1).
      rewrite IH. destruct (decide (key ∈ rest.*1)) as [Hin|Hout].
      * rewrite decide_True by (by apply list_elem_of_further). reflexivity.
      * rewrite decide_False; [ reflexivity | ].
        rewrite elem_of_cons. intros [?|?]; congruence.
Qed.

Lemma Map_set_elem_of {V} (key : string) (v : V) (m : list (string * V)) :
  NoDup m.*1 →
  ∀ k w, (k, w) ∈ Map_set key v m ↔
         (k = key ∧ w = v) ∨ (k ≠ key ∧ (k, w) ∈ m).
Proof.
  induction m as [|[k0 w0] rest IH]; intros Hnd k w.
  - cbn [Map_set]. rewrite list_elem_of_singleton. split.
    + intros [= -> ->]. by left.
    + intros [[-> ->]|[_ H]]; [ done | by apply elem_of_nil in H ].
  - cbn [fmap list_fmap fst] in Hnd. apply NoDup_cons in Hnd as [Hout Hnd].
    cbn [Map_set]. destruct (decide (k0 = key)) as [->|Hne].
    + rewrite !elem_of_cons. split.
      * intros [[= -> ->]|Hin]; [ by left | ].
        right. split; [ | by right ]. intros ->. apply Hout.
        apply list_elem_of_fmap. by exists (key, w).
      * intros [[-> ->]|[Hk [[= ? ?]|Hin]]]; [ by left | congruence | by right ].
    + rewrite !elem_of_cons, (IH Hnd). split.
      * intros [[= -> ->]|[[-> ->]|[Hk Hin]]]; [ right | by left | right ].
        -- split; [ done | by left ].
        -- split; [ done | by right ].
      * intros [[-> ->]|[Hk [[= -> ->]|Hin]]]; [ right; by left | by left | right; by right ].
Qed.


(** Registering keeps the identifiers of the registry unique: a new
    identifier goes last, an identifier already present keeps its place
    and its listener is replaced; the other listeners are untouched. *)
Theorem registerCallback_replaces_in_place (cb_id : string) (callback : DashboardCallback)
    (st : Store) :
  NoDup (callbacks st).*1 →
  ∃ st',
    registerCallback cb_id callback st = (Normal tt, st') ∧
    NoDup (callbacks st').*1 ∧
    (callbacks st').*1
    = (if decide (cb_id ∈ (callbacks st).*1)
       then (callbacks st).*1 else (callbacks st).*1 ++ [cb_id]) ∧
    (∀ other, (cb_id, other) ∈ callbacks st' ↔ other = callback) ∧
    (∀ k other, k ≠ cb_id → ((k, other) ∈ callbacks st' ↔ (k, other) ∈ callbacks st)).
Proof.
  intros Hnd. eexists. split; [ reflexivity | ].
  cbn [callbacks setCallbacks]. split; [ | split; [ | split ] ].
  - rewrite Map_set_fst. case_decide; [ done | ].
    apply NoDup_app. split; [ done | ]. split.
    + intros x Hx Hin. apply list_elem_of_singleton in Hin. by subst.
    + apply NoDup_singleton.
  - apply Map_set_fst.
  - intros other. rewrite (Map_set_elem_of _ _ _ Hnd). split.
    + by intros [[_ ->]|[? _]].
    + intros ->. by left.
  - intros k other Hk. rewrite (Map_set_elem_of _ _ _ Hnd). split.
    + by intros [[-> _]|[_ ?]].
    + intros ?. by right.
Qed.

Lemma registerCallback_replaces_in_place_witness :
  ∃ st',
    registerCallback "chart" faulty listening = (Normal tt, st') ∧
    NoDup (callbacks st').*1 ∧
    (callbacks st').*1
    = (if decide ("chart" ∈ (callbacks listening).*1)
       then (callbacks listening).*1 else (callbacks listening).*1 ++ ["chart"]) ∧
    (∀ other, ("chart", other) ∈ callbacks st' ↔ other = faulty) ∧
    (∀ k other, k ≠ "chart" → ((k, other) ∈ callbacks st' ↔ (k, other) ∈ callbacks listening)).
Proof.
  apply (registerCallback_replaces_in_place "chart" faulty listening).
  vm_compute. apply NoDup_singleton.
Defined.



(** ** Snapshots, continued *)

Lemma substring_all (s : string) : String.substring 0 (String.length s) s = s.
Proof. induction s as [|a s IH]; [ reflexivity | ]. simpl. by rewrite IH. Qed.

Lemma app_nil_string (rest : string) : "" +:+ rest = rest.
Proof. reflexivity. Qed.

Lemma app_cons_string (a : Ascii.ascii) (s rest : string) :
  String a s +:+ rest = String a (s +:+ rest).
Proof. reflexivity. Qed.

Lemma startsWith_inv (prefix key : string) :
  startsWith prefix key = true → ∃ rest, key = prefix +:+ rest.
Proof.
  unfold startsWith. revert key. induction prefix as [|a prefix IH]; intros key H.
  - by exists key.
  - destruct key as [|b key]; [ discriminate | ]. cbn [String.prefix] in H.
    destruct (Ascii.ascii_dec a b) as [->|]; [ | discriminate ].
    destruct (IH key H) as [rest ->]. exists rest. by rewrite app_cons_string.
Qed.

Lemma prefix_app (prefix rest : string) : String.prefix prefix (prefix +:+ rest) = true.
Proof.
  induction prefix as [|a prefix IH].
  - rewrite app_nil_string. by destruct rest.
  - rewrite app_cons_string. cbn [String.prefix].
    destruct (Ascii.ascii_dec a a); [ exact IH | done ].
Qed.

Lemma index_prefix (prefix s : string) :
  String.prefix prefix s = true → String.index 0 prefix s = Some 0%nat.
Proof.
  intros H. destruct s as [|b s].
  - destruct prefix; [ reflexivity | discriminate ].
  - cbn [String.index]. by rewrite H.
Qed.

Lemma substring_after (prefix rest : string) (n : nat) :
  String.substring (String.length prefix) n (prefix +:+ rest) = String.substring 0 n rest.
Proof.
  induction prefix as [|a prefix IH]; [ by rewrite app_nil_string | ].
  rewrite app_cons_string. cbn [String.length String.substring]. apply IH.
Qed.

Lemma length_after (prefix rest : string) :
  (String.length (prefix +:+ rest) - String.length prefix)%nat = String.length rest.
Proof.
  induction prefix as [|a prefix IH].
  - rewrite app_nil_string. cbn [String.length]. lia.
  - rewrite app_cons_string. cbn [String.length Nat.sub]. apply IH.
Qed.

(** Removing a pattern from a text that starts with it leaves the rest. *)
Lemma replace_prefix (prefix rest : string) :
  replace_first_with_empty prefix (prefix +:+ rest) = rest.
Proof.
  unfold replace_first_with_empty. rewrite (index_prefix _ _ (prefix_app prefix rest)).
  cbn [Nat.add]. rewrite substring_after, length_after, substring_all.
  by destruct (prefix +:+ rest).
Qed.

Lemma startsWith_storage_key (name : string) :
  startsWith snapshot_prefix (storage_key name) = true.
Proof. apply prefix_app. Qed.

Lemma strip_storage_key (name : string) :
  replace_first_with_empty snapshot_prefix (storage_key name) = name.
Proof. apply replace_prefix. Qed.

Lemma storage_key_strip (key : string) :
  startsWith snapshot_prefix key = true →
  storage_key (replace_first_with_empty snapshot_prefix key) = key.
Proof.
  intros H. destruct (startsWith_inv _ _ H) as [rest ->].
  change (snapshot_prefix +:+ rest) with (storage_key rest).
  by rewrite strip_storage_key.
Qed.

Lemma storage_key_inj (name name' : string) :
  storage_key name = storage_key name' → name = name'.
Proof. intros H. by rewrite <- (strip_storage_key name), H, strip_storage_key. Qed.

Lemma Set_add_spec (seen : list string) (x : string) :
  NoDup seen →
  NoDup (Set_add seen x) ∧ ∀ y, y ∈ Set_add seen x ↔ y ∈ seen ∨ y = x.
Proof.
  intros Hnd. unfold Set_add. case_decide as Hin.
  - split; [ done | ]. intros y. split; [ by left | by intros [?| ->] ].
  - split.
    + apply NoDup_app. split; [ done | ]. split; [ | apply NoDup_singleton ].
      intros y Hy Hy'. apply list_elem_of_singleton in Hy'. by subst.
    + intros y. by rewrite elem_of_app, list_elem_of_singleton.
Qed.

Lemma foldl_Set_add_spec (xs seen : list string) :
  NoDup seen →
  NoDup (foldl Set_add seen xs) ∧
  ∀ y, y ∈ foldl Set_add seen xs ↔ y ∈ seen ∨ y ∈ xs.
Proof.
  revert seen. induction xs as [|x xs IH]; intros seen Hnd.
  - split; [ done | ]. intros y. rewrite elem_of_nil. tauto.
  - destruct (Set_add_spec seen x Hnd) as [Hnd' Hin'].
    destruct (IH _ Hnd') as [Hnd'' Hin'']. split; [ done | ].
    intros y. cbn [foldl]. rewrite Hin'', Hin', elem_of_cons. tauto.
Qed.

Lemma Set_from_spec (xs : list string) :
  NoDup (Set_from xs) ∧ ∀ y, y ∈ Set_from xs ↔ y ∈ xs.
Proof.
  destruct (foldl_Set_add_spec xs [] (NoDup_nil_2)) as [Hnd Hin].
  split; [ done | ]. intros y. rewrite Hin, elem_of_nil. tauto.
Qed.

Lemma elem_of_snapshotNames (keys : list string) (name : string) :
  name ∈ snapshotNames keys ↔ storage_key name ∈ keys.
Proof.
  unfold snapshotNames. rewrite list_elem_of_omap. split.
  - intros (key & Hin & Hsome).
    destruct (startsWith snapshot_prefix key) eqn:Hp; [ | discriminate ].
    injection Hsome as <-. by rewrite storage_key_strip.
  - intros Hin. exists (storage_key name). split; [ done | ].
    by rewrite startsWith_storage_key, strip_storage_key.
Qed.

Lemma elem_of_getSavedStates (st : Store) (name : string) :
  name ∈ getSavedStates st ↔
  is_Some (savedStates st !! name) ∨ is_Some (localStorage st !! storage_key name).
Proof.
  unfold getSavedStates.
  destruct (Set_from_spec ((map_to_list (savedStates st)).*1 ++
                           snapshotNames (localStorage_keys st))) as [Hnd Hin].
  rewrite Hin, elem_of_app, elem_of_snapshotNames. unfold localStorage_keys.
  assert (Hkeys : ∀ {V} (m : gmap string V) k,
             k ∈ (map_to_list m).*1 ↔ is_Some (m !! k)).
  { intros V m k. rewrite list_elem_of_fmap. split.
    - intros [[k' v] [-> Hk]]. apply elem_of_map_to_list in Hk. eauto.
    - intros [v Hv]. exists (k, v). split; [ done | ]. by apply elem_of_map_to_list. }
  by rewrite !Hkeys.
Qed.

(** [getSavedStates] lists exactly the names that have a snapshot in
    memory or a text under their key in [localStorage], each name once. *)
Theorem getSavedStates_spec (st : Store) :
  NoDup (getSavedStates st) ∧
  ∀ name,
    name ∈ getSavedStates st ↔
    is_Some (savedStates st !! name) ∨ is_Some (localStorage st !! storage_key name).
Proof.
  split; [ apply Set_from_spec | apply elem_of_getSavedStates ].
Qed.

Lemma saveState_eq_full (name : string) (st : Store) :
  saveState name st =
    (Normal tt,
     if storageFull st
     then emit (ConsoleWarn QuotaExceededError)
            (setSavedStates (fun prev => <[name := dashboardState st]> prev) st)
     else writeLocalStorage (storage_key name) (Json (dashboardState st))
            (setSavedStates (fun prev => <[name := dashboardState st]> prev) st)).
Proof.
  unfold saveState, bind, gets, modify, try_catch, localStorage_setItem.
  cbn [storageFull setSavedStates]. by destruct (storageFull st).
Qed.

Lemma loadState_memory (name : string) (snapshot : gmap string string) (st : Store) :
  savedStates st !! name = Some snapshot →
  loadState name st = (Normal true, setDashboardState snapshot st).
Proof. intros H. unfold loadState, bind, gets. by rewrite H. Qed.

(** Snapshot round trip: a state saved under a name is what [loadState]
    of that name brings back, after a reset as well as after a further
    update, whether or not the write to [localStorage] succeeded. *)
Theorem snapshot_round_trip (name : string) (clock : Clock) (c : UpdateCall) (st : Store) :
  (∃ st', (saveState name ;; resetToDefault clock ;; loadState name) st = (Normal true, st') ∧
          dashboardState st' = dashboardState st) ∧
  (∃ st', (saveState name ;; update c ;; loadState name) st = (Normal true, st') ∧
          dashboardState st' = dashboardState st).
Proof.
  split.
  - rewrite (bind_Normal _ _ _ _ _ (saveState_eq_full name st)).
    rewrite (bind_Normal _ _ _ _ _ (resetToDefault_eq clock _)).
    eexists. split.
    + apply loadState_memory. cbn [savedStates].
      destruct (storageFull st); cbn [savedStates emit writeLocalStorage setSavedStates];
        apply lookup_insert_eq.
    + reflexivity.
  - rewrite (bind_Normal _ _ _ _ _ (saveState_eq_full name st)).
    unfold update. rewrite (bind_Normal _ _ _ _ _ (updateDashboardState_eq _ _ _ _)).
    eexists. split.
    + apply loadState_memory. cbn [savedStates].
      destruct (storageFull st); cbn [savedStates emit writeLocalStorage setSavedStates];
        apply lookup_insert_eq.
    + reflexivity.
Qed.

(** When [localStorage] refuses the write, [saveState] still completes:
    the failure is logged as a warning, [localStorage] is left as it was,
    and the snapshot, kept in memory, is listed and can be loaded. *)
Theorem saveState_survives_full_storage (name : string) (st : Store) :
  storageFull st = true →
  ∃ st' st'',
    saveState name st = (Normal tt, st') ∧
    localStorage st' = localStorage st ∧
    trace st' = trace st ++ [ConsoleWarn QuotaExceededError] ∧
    name ∈ getSavedStates st' ∧
    loadState name st' = (Normal true, st'') ∧
    dashboardState st'' = dashboardState st.
Proof.
  intros Hfull. rewrite saveState_eq_full, Hfull.
  eexists _, _. split; [ reflexivity | ]. split; [ reflexivity | ].
  split; [ reflexivity | ]. split.
  - apply elem_of_getSavedStates. left. cbn [savedStates emit setSavedStates].
    rewrite lookup_insert_eq. eauto.
  - split.
    + apply loadState_memory. cbn [savedStates emit setSavedStates].
      apply lookup_insert_eq.
    + reflexivity.
Qed.

Lemma saveState_survives_full_storage_witness :
  ∃ st' st'',
    saveState "mine" (exec (update toEurope) (initialStore ∅ true)) = (Normal tt, st') ∧
    localStorage st' = localStorage (exec (update toEurope) (initialStore ∅ true)) ∧
    trace st' = trace (exec (update toEurope) (initialStore ∅ true))
                ++ [ConsoleWarn QuotaExceededError] ∧
    "mine" ∈ getSavedStates st' ∧
    loadState "mine" st' = (Normal true, st'') ∧
    dashboardState st'' = dashboardState (exec (update toEurope) (initialStore ∅ true)).
Proof.
  apply (saveState_survives_full_storage "mine"
           (exec (update toEurope) (initialStore ∅ true))).
  reflexivity.
Defined.

(** A snapshot written to [localStorage] by one instance of the hook can
    be loaded by any other instance that shares the storage and has no
    snapshot of that name in memory: it gets the state that was saved. *)
Theorem snapshot_shared_through_storage (name : string) (st other : Store) :
  storageFull st = false →
  savedStates other !! name = None →
  localStorage other = localStorage (exec (saveState name) st) →
  loadState name other = (Normal true, setDashboardState (dashboardState st) other).
Proof.
  intros Hfull Hmem Hls. unfold exec in Hls. rewrite saveState_eq_full, Hfull in Hls.
  cbn [snd localStorage writeLocalStorage setSavedStates] in Hls.
  unfold loadState, bind, gets, try_catch, localStorage_getItem, gets.
  cbn [savedStates]. rewrite Hmem, Hls, lookup_insert_eq. reflexivity.
Qed.

Lemma snapshot_shared_through_storage_witness :
  loadState "mine"
    (initialStore (localStorage (exec (saveState "mine") afterOneUpdate)) true)
  = (Normal true,
     setDashboardState (dashboardState afterOneUpdate)
       (initialStore (localStorage (exec (saveState "mine") afterOneUpdate)) true)).
Proof.
  apply (snapshot_shared_through_storage "mine" afterOneUpdate
           (initialStore (localStorage (exec (saveState "mine") afterOneUpdate)) true)).
  - reflexivity.
  - reflexivity.
  - reflexivity.
Defined.

(** A persisted text that is empty, or that [JSON.parse] rejects, is
    treated as "not found": [loadState] returns [false] without an
    exception and leaves the current state and the in-memory snapshots as
    they were; the rejected text is logged as a warning, the empty one is
    skipped silently. *)
Theorem loadState_rejects_corrupt_snapshot (name : string) (text : item) (st : Store) :
  savedStates st !! name = None →
  localStorage st !! storage_key name = Some text →
  text = EmptyText ∨ (∃ raw, text = Malformed raw ∧ rejected_by_JSON_parse raw = true) →
  ∃ st',
    loadState name st = (Normal false, st') ∧
    dashboardState st' = dashboardState st ∧
    savedStates st' = savedStates st ∧
    trace st' = trace st ++ (if truthy text then [ConsoleWarn SyntaxError] else []).
Proof.
  intros Hmem Hls Hbad.
  unfold loadState, bind, gets, try_catch, localStorage_getItem, gets.
  cbn [savedStates]. rewrite Hmem, Hls.
  destruct Hbad as [->|(raw & -> & _)].
  - exists st. cbn [truthy]. rewrite app_nil_r. by repeat split.
  - eexists. split; [ reflexivity | ]. by repeat split.
Qed.

Lemma loadState_rejects_corrupt_snapshot_witness :
  ∃ st',
    loadState "broken" (initialStore {[ storage_key "broken" := Malformed "oops" ]} false)
    = (Normal false, st') ∧
    dashboardState st'
    = dashboardState (initialStore {[ storage_key "broken" := Malformed "oops" ]} false) ∧
    savedStates st'
    = savedStates (initialStore {[ storage_key "broken" := Malformed "oops" ]} false) ∧
    trace st'
    = trace (initialStore {[ storage_key "broken" := Malformed "oops" ]} false)
      ++ (if truthy (Malformed "oops") then [ConsoleWarn SyntaxError] else []).
Proof.
  apply (loadState_rejects_corrupt_snapshot "broken" (Malformed "oops")
           (initialStore {[ storage_key "broken" := Malformed "oops" ]} false)).
  - reflexivity.
  - vm_compute. reflexivity.
  - right. exists "oops". split; [ reflexivity | vm_compute; reflexivity ].
Defined.

(** *** The mount effect *)

Lemma readSnapshots_spec (entries : list (string * item))
    (acc : gmap string (gmap string string)) :
  NoDup entries.*1 →
  (∀ key raw, (key, Malformed raw) ∈ entries → startsWith snapshot_prefix key = false) →
  ∃ loaded,
    readSnapshots entries acc = Normal loaded ∧
    ∀ name,
      loaded !! name =
        match (list_to_map entries : gmap string item) !! storage_key name with
        | Some (Json snapshot) => Some snapshot
        | _ => acc !! name
        end.
Proof.
  revert acc. induction entries as [|[key text] rest IH]; intros acc Hnd Hok.
  - exists acc. split; [ reflexivity | ]. intros name.
    change (list_to_map []) with (∅ : gmap string item). by rewrite lookup_empty.
  - cbn [fmap list_fmap fst] in Hnd. apply NoDup_cons in Hnd as [Hout Hnd].
    assert (Hok' : ∀ k raw, (k, Malformed raw) ∈ rest →
                            startsWith snapshot_prefix k = false).
    { intros k raw Hin. apply (Hok k raw). by apply list_elem_of_further. }
    assert (Hfresh : (list_to_map rest : gmap string item) !! key = None).
    { by apply not_elem_of_list_to_map_1. }
    cbn [readSnapshots list_to_map foldr curry fst snd].
    destruct (startsWith snapshot_prefix key) eqn:Hp.
    + pose proof (storage_key_strip key Hp) as Hkey.
      destruct text as [ | snapshot | raw ]; cbn [truthy JSON_parse].
      * destruct (IH acc Hnd Hok') as (loaded & Hrun & Hl).
        exists loaded. split; [ done | ]. intros name. rewrite Hl.
        destruct (decide (key = storage_key name)) as [->|Hne].
        -- by rewrite lookup_insert_eq, Hfresh.
        -- by rewrite lookup_insert_ne.
      * destruct (IH (<[replace_first_with_empty snapshot_prefix key := snapshot]> acc)
                     Hnd Hok') as (loaded & Hrun & Hl).
        exists loaded. split; [ done | ]. intros name. rewrite Hl.
        destruct (decide (key = storage_key name)) as [->|Hne].
        -- by rewrite lookup_insert_eq, Hfresh, strip_storage_key, lookup_insert_eq.
        -- rewrite (lookup_insert_ne _ key) by done.
           rewrite lookup_insert_ne; [ done | ].
           intros <-. by rewrite Hkey in Hne.
      * rewrite (Hok key raw) in Hp by apply list_elem_of_here. discriminate.
    + destruct (IH acc Hnd Hok') as (loaded & Hrun & Hl).
      exists loaded. split; [ done | ]. intros name. rewrite Hl.
      rewrite lookup_insert_ne; [ done | ].
      intros ->. by rewrite startsWith_storage_key in Hp.
Qed.

Lemma readSnapshots_throws (entries : list (string * item))
    (acc : gmap string (gmap string string)) (key raw : string) :
  (key, Malformed raw) ∈ entries →
  startsWith snapshot_prefix key = true →
  readSnapshots entries acc = Throw SyntaxError.
Proof.
  revert acc. induction entries as [|[k text] rest IH]; intros acc Hin Hp.
  - by apply elem_of_nil in Hin.
  - cbn [readSnapshots]. apply elem_of_cons in Hin as [[= <- <-]|Hin].
    + by rewrite Hp.
    + destruct (startsWith snapshot_prefix k); [ | by apply IH ].
      destruct text as [ | snapshot | raw' ]; cbn [truthy JSON_parse];
        [ by apply IH | by apply IH | reflexivity ].
Qed.

(** The mount effect, when no persisted snapshot is corrupt: it completes
    silently and the in-memory map then holds exactly the well-formed
    snapshots that [localStorage] holds under the snapshot prefix, each
    under its name. *)
Theorem mountEffect_loads_every_snapshot (st : Store) :
  (∀ key raw, localStorage st !! key = Some (Malformed raw) →
              startsWith snapshot_prefix key = false) →
  ∃ st',
    mountEffect st = (Normal tt, st') ∧
    trace st' = trace st ∧
    dashboardState st' = dashboardState st ∧
    ∀ name snapshot,
      savedStates st' !! name = Some snapshot ↔
      localStorage st !! storage_key name = Some (Json snapshot).
Proof.
  intros Hok.
  destruct (readSnapshots_spec (map_to_list (localStorage st)) ∅) as (loaded & Hrun & Hl).
  { apply NoDup_fst_map_to_list. }
  { intros key raw Hin. apply (Hok key raw). by apply elem_of_map_to_list. }
  unfold mountEffect, try_catch, bind, gets, lift, modify. rewrite Hrun.
  eexists. split; [ reflexivity | ]. split; [ reflexivity | ]. split; [ reflexivity | ].
  intros name snapshot. cbn [savedStates setSavedStates]. rewrite Hl.
  rewrite list_to_map_to_list, lookup_empty.
  destruct (localStorage st !! storage_key name) as [[ | s | raw ]|]; naive_solver.
Qed.

Lemma mountEffect_loads_every_snapshot_witness :
  ∃ st',
    mountEffect persistedOnly = (Normal tt, st') ∧
    trace st' = trace persistedOnly ∧
    dashboardState st' = dashboardState persistedOnly ∧
    ∀ name snapshot,
      savedStates st' !! name = Some snapshot ↔
      localStorage persistedOnly !! storage_key name = Some (Json snapshot).
Proof.
  apply (mountEffect_loads_every_snapshot persistedOnly).
  intros key raw H. unfold persistedOnly, initialStore in H. cbn [localStorage] in H.
  apply lookup_singleton_Some in H as [_ H]. discriminate.
Defined.

(** The mount effect is all or nothing: one text under the snapshot
    prefix that [JSON.parse] rejects makes it give up, with a warning and
    no exception, and no snapshot at all is put in memory, the
    well-formed ones included. *)
Theorem mountEffect_gives_up_on_corrupt_snapshot (key raw : string) (st : Store) :
  localStorage st !! key = Some (Malformed raw) →
  rejected_by_JSON_parse raw = true →
  startsWith snapshot_prefix key = true →
  mountEffect st = (Normal tt, emit (ConsoleWarn SyntaxError) st).
Proof.
  intros Hls _ Hp.
  unfold mountEffect, try_catch, bind, gets, lift.
  rewrite (readSnapshots_throws _ _ key raw); [ reflexivity | | done ].
  by apply elem_of_map_to_list.
Qed.

Lemma mountEffect_gives_up_on_corrupt_snapshot_witness :
  mountEffect (initialStore {[ storage_key "good" := Json europeSnapshot;
                               storage_key "bad" := Malformed "oops" ]} false)
  = (Normal tt,
     emit (ConsoleWarn SyntaxError)
       (initialStore {[ storage_key "good" := Json europeSnapshot;
                        storage_key "bad" := Malformed "oops" ]} false)).
Proof.
  apply (mountEffect_gives_up_on_corrupt_snapshot (storage_key "bad") "oops").
  - vm_compute. reflexivity.
  - vm_compute. reflexivity.
  - vm_compute. reflexivity.
Defined.

(** ** The data views *)

Lemma filter_selects_all {A} (state : gmap string string) (field : string)
    (get : A → string) (rows : list A) :
  state !! field = Some "all" →
  filter (fun d => selects state field (get d)) rows = rows.
Proof.
  intros Hall. induction rows as [|d rows IH]; [ done | ].
  rewrite filter_cons_True by (by left). by rewrite IH.
Qed.

Lemma filter_selects_one {A} (state : gmap string string) (field : string)
    (get : A → string) (rows : list A) :
  state !! field ≠ Some "all" →
  filter (fun d => selects state field (get d)) rows
  = filter (fun d => Some (get d) = state !! field) rows.
Proof.
  intros Hsel. apply list_filter_iff. intros d. unfold selects.
  split; [ by intros [?|?] | by right ].
Qed.

(** [filteredData] as one filter per selection, in the order of the code. *)
Lemma filteredData_eq {number} (datasets : DashboardDatasets number)
    (state : gmap string string) :
  filteredData datasets state =
    mkDatasets
      ((if decide (state !! "selectedTimeRange" ≠ Some "All Time")
        then slice_from (- monthsToInclude state) else fun rows => rows)
         (filter (fun d => selects state "selectedRegion" (RevenueData.region d))
            (filter (fun d => selects state "selectedDepartment" (RevenueData.department d))
                    (revenue datasets))))
      (filter (fun d => selects state "selectedIndustry" (CustomerData.industry d))
         (filter (fun d => selects state "selectedRegion" (CustomerData.region d))
                 (customer datasets)))
      (filter (fun d => selects state "selectedDepartment" (PerformanceData.department d))
              (performance datasets))
      (geographic datasets).
Proof.
  destruct datasets as [rev cus perf geo]. unfold filteredData, monthsToInclude.
  cbn [revenue customer performance geographic].
  destruct (decide (state !! "selectedDepartment" ≠ Some "all")) as [Hd|Hd];
    [ rewrite !(filter_selects_one state "selectedDepartment") by done
    | apply dec_stable in Hd;
      rewrite !(filter_selects_all state "selectedDepartment") by done ];
    cbn [revenue customer performance geographic];
    (destruct (decide (state !! "selectedRegion" ≠ Some "all")) as [Hr|Hr];
     [ rewrite !(filter_selects_one state "selectedRegion") by done
     | apply dec_stable in Hr;
       rewrite !(filter_selects_all state "selectedRegion") by done ]);
    cbn [revenue customer performance geographic];
    (destruct (decide (state !! "selectedIndustry" ≠ Some "all")) as [Hi|Hi];
     [ rewrite !(filter_selects_one state "selectedIndustry") by done
     | apply dec_stable in Hi;
       rewrite !(filter_selects_all state "selectedIndustry") by done ]);
    cbn [revenue customer performance geographic];
    destruct (decide (state !! "selectedTimeRange" ≠ Some "All Time"));
    reflexivity.
Qed.

(** With every selection at ["all"] and the time range at ["All Time"],
    the filtered view is the datasets themselves. *)
Theorem filteredData_unfiltered {number} (datasets : DashboardDatasets number)
    (state : gmap string string) :
  state !! "selectedDepartment" = Some "all" →
  state !! "selectedRegion" = Some "all" →
  state !! "selectedIndustry" = Some "all" →
  state !! "selectedTimeRange" = Some "All Time" →
  filteredData datasets state = datasets.
Proof.
  intros Hd Hr Hi Ht. rewrite filteredData_eq.
  rewrite !(filter_selects_all state "selectedDepartment") by done.
  rewrite !(filter_selects_all state "selectedRegion") by done.
  rewrite !(filter_selects_all state "selectedIndustry") by done.
  rewrite decide_False by (intros H; by apply H).
  by destruct datasets.
Qed.

Lemma filteredData_unfiltered_witness :
  filteredData exampleDatasets unfiltered = exampleDatasets.
Proof.
  apply (filteredData_unfiltered exampleDatasets unfiltered).
  - vm_compute. reflexivity.
  - vm_compute. reflexivity.
  - vm_compute. reflexivity.
  - vm_compute. reflexivity.
Defined.

Lemma elem_of_slice_from {A} (start : Z) (rows : list A) (d : A) :
  d ∈ slice_from start rows → d ∈ rows.
Proof.
  unfold slice_from. destruct (start <? 0); intros H;
    (eapply elem_of_suffix; [ exact H | apply suffix_drop ]).
Qed.

(** What the filtered view holds.  The geographic rows are never
    filtered; a performance row is kept exactly when the department
    selection lets it through, a customer row exactly when the region and
    industry selections do; a revenue row that is kept is a row of the
    dataset that the department and region selections let through, and
    with the time range at ["All Time"] every such row is kept. *)
Theorem filteredData_selection {number} (datasets : DashboardDatasets number)
    (state : gmap string string) :
  geographic (filteredData datasets state) = geographic datasets ∧
  (∀ d, d ∈ performance (filteredData datasets state) ↔
        d ∈ performance datasets ∧
        selects state "selectedDepartment" (PerformanceData.department d)) ∧
  (∀ d, d ∈ customer (filteredData datasets state) ↔
        d ∈ customer datasets ∧
        selects state "selectedRegion" (CustomerData.region d) ∧
        selects state "selectedIndustry" (CustomerData.industry d)) ∧
  (∀ d, d ∈ revenue (filteredData datasets state) →
        d ∈ revenue datasets ∧
        selects state "selectedDepartment" (RevenueData.department d) ∧
        selects state "selectedRegion" (RevenueData.region d)) ∧
  (state !! "selectedTimeRange" = Some "All Time" →
   ∀ d, d ∈ revenue datasets →
        selects state "selectedDepartment" (RevenueData.department d) →
        selects state "selectedRegion" (RevenueData.region d) →
        d ∈ revenue (filteredData datasets state)).
Proof.
  rewrite filteredData_eq. cbn [revenue customer performance geographic].
  split; [ reflexivity | ]. split; [ | split; [ | split ] ].
  - intros d. rewrite list_elem_of_filter. tauto.
  - intros d. rewrite !list_elem_of_filter. tauto.
  - intros d Hin.
    assert (Hin' : d ∈ filter (fun d => selects state "selectedRegion" (RevenueData.region d))
                     (filter (fun d => selects state "selectedDepartment"
                                         (RevenueData.department d))
                             (revenue datasets))).
    { case_decide; [ by apply elem_of_slice_from in Hin | done ]. }
    rewrite !list_elem_of_filter in Hin'. tauto.
  - intros Ht d Hin Hd Hr. rewrite decide_False by (intros H; by apply H).
    rewrite !list_elem_of_filter. tauto.
Qed.

Lemma length_slice_from_last {A} (months : Z) (rows : list A) :
  0 < months →
  Z.of_nat (length (slice_from (- months) rows))
  = Z.min months (Z.of_nat (length rows)).
Proof.
  intros Hm. unfold slice_from. destruct (Z.ltb_spec (- months) 0); [ | lia ].
  rewrite length_drop. lia.
Qed.

Lemma monthsToInclude_range (state : gmap string string) :
  monthsToInclude state = 6 ∨ monthsToInclude state = 12 ∨ monthsToInclude state = 24.
Proof. unfold monthsToInclude. repeat case_decide; tauto. Qed.

(** The time window.  Unless the time range is ["All Time"], the revenue
    view is the last rows, in order, of the rows that the department and
    region selections let through: 6 of them for ["6M"], 12 for ["1Y"],
    24 for any other value (a missing one included), or all of them when
    there are fewer. *)
Theorem filteredData_time_window {number} (datasets : DashboardDatasets number)
    (state : gmap string string) :
  state !! "selectedTimeRange" ≠ Some "All Time" →
  let selected :=
    filter (fun d => selects state "selectedRegion" (RevenueData.region d))
      (filter (fun d => selects state "selectedDepartment" (RevenueData.department d))
              (revenue datasets)) in
  revenue (filteredData datasets state) `suffix_of` selected ∧
  Z.of_nat (length (revenue (filteredData datasets state)))
  = Z.min (monthsToInclude state) (Z.of_nat (length selected)).
Proof.
  intros Ht selected. rewrite filteredData_eq. cbn [revenue].
  rewrite decide_True by done. fold selected. split.
  - unfold slice_from. destruct (_ <? 0); apply suffix_drop.
  - apply length_slice_from_last.
    destruct (monthsToInclude_range state) as [->|[->| ->]]; lia.
Qed.

Lemma filteredData_time_window_witness :
  RevenueData.month <$> revenue (filteredData eightMonths lastSixMonths)
  = ["2024-03"; "2024-04"; "2024-05"; "2024-06"; "2024-07"; "2024-08"] ∧
  let selected :=
    filter (fun d => selects lastSixMonths "selectedRegion" (RevenueData.region d))
      (filter (fun d => selects lastSixMonths "selectedDepartment"
                          (RevenueData.department d))
              (revenue eightMonths)) in
  revenue (filteredData eightMonths lastSixMonths) `suffix_of` selected ∧
  Z.of_nat (length (revenue (filteredData eightMonths lastSixMonths)))
  = Z.min (monthsToInclude lastSixMonths) (Z.of_nat (length selected)).
Proof.
  split; [ vm_compute; reflexivity | ].
  apply (filteredData_time_window eightMonths lastSixMonths).
  vm_compute. discriminate.
Defined.

(** *** The filter options *)

Lemma elem_of_distinctTruthy (values : list string) (value : string) :
  value ∈ distinctTruthy values ↔ value ≠ "" ∧ value ∈ values.
Proof.
  unfold distinctTruthy. rewrite list_elem_of_filter.
  by rewrite (proj2 (Set_from_spec values)).
Qed.

Lemma NoDup_distinctTruthy (values : list string) : NoDup (distinctTruthy values).
Proof. unfold distinctTruthy. apply NoDup_filter, Set_from_spec. Qed.

Lemma availableFilters_eq {number} (datasets : DashboardDatasets number) :
  availableFilters datasets =
    mkFilters ["6M"; "1Y"; "2Y"; "All Time"]
      (if decide (0 < length (revenue datasets))%nat
       then distinctTruthy (RevenueData.department <$> revenue datasets) else [])
      (if decide (0 < length (revenue datasets))%nat
       then distinctTruthy ((RevenueData.region <$> revenue datasets) ++
                            (CustomerData.region <$> customer datasets)) else [])
      (if decide (0 < length (customer datasets))%nat
       then distinctTruthy (CustomerData.industry <$> customer datasets) else [])
      (if decide (0 < length (revenue datasets))%nat
       then distinctTruthy (RevenueData.product_line <$> revenue datasets) else []).
Proof. unfold availableFilters. by repeat case_decide. Qed.

Lemma elem_of_departments {number} (datasets : DashboardDatasets number) (value : string) :
  value ∈ departments (availableFilters datasets) ↔
  value ≠ "" ∧ ∃ d, d ∈ revenue datasets ∧ RevenueData.department d = value.
Proof.
  rewrite availableFilters_eq. cbn [departments]. case_decide as Hlen.
  - rewrite elem_of_distinctTruthy, list_elem_of_fmap.
    split; intros (Hv & d & H1 & H2); (split; [ done | exists d; by split ]).
  - rewrite elem_of_nil. destruct (revenue datasets); [ | simpl in Hlen; lia ].
    split; [ done | ]. intros (_ & d & Hin & _). by apply elem_of_nil in Hin.
Qed.

Lemma elem_of_industries {number} (datasets : DashboardDatasets number) (value : string) :
  value ∈ industries (availableFilters datasets) ↔
  value ≠ "" ∧ ∃ d, d ∈ customer datasets ∧ CustomerData.industry d = value.
Proof.
  rewrite availableFilters_eq. cbn [industries]. case_decide as Hlen.
  - rewrite elem_of_distinctTruthy, list_elem_of_fmap.
    split; intros (Hv & d & H1 & H2); (split; [ done | exists d; by split ]).
  - rewrite elem_of_nil. destruct (customer datasets); [ | simpl in Hlen; lia ].
    split; [ done | ]. intros (_ & d & Hin & _). by apply elem_of_nil in Hin.
Qed.

Lemma elem_of_regions {number} (datasets : DashboardDatasets number) (value : string) :
  value ∈ regions (availableFilters datasets) ↔
  revenue datasets ≠ [] ∧ value ≠ "" ∧
  ((∃ d, d ∈ revenue datasets ∧ RevenueData.region d = value) ∨
   (∃ d, d ∈ customer datasets ∧ CustomerData.region d = value)).
Proof.
  rewrite availableFilters_eq. cbn [regions]. case_decide as Hlen.
  - rewrite elem_of_distinctTruthy, elem_of_app, !list_elem_of_fmap.
    assert (revenue datasets ≠ []) by (intros E; rewrite E in Hlen; simpl in Hlen; lia).
    split.
    + intros (Hv & [(d & H1 & H2)|(d & H1 & H2)]);
        (split; [ done | ]); (split; [ done | ]);
        [ left | right ]; exists d; by split.
    + intros (_ & Hv & [(d & H1 & H2)|(d & H1 & H2)]);
        (split; [ done | ]); [ left | right ]; exists d; by split.
  - rewrite elem_of_nil. destruct (revenue datasets); [ | simpl in Hlen; lia ].
    split; [ done | ]. by intros [? _].
Qed.

(** The options offered for the data-derived filters: ["all"] comes
    first; a department is offered exactly when it is the non-empty
    department of a revenue row, an industry exactly when it is the
    non-empty industry of a customer row; a region is offered exactly
    when there is at least one revenue row and it is the non-empty region
    of a revenue row or of a customer row.  No value is offered twice
    after the leading ["all"]. *)
Theorem getFilterOptions_spec {number} (datasets : DashboardDatasets number) :
  (∃ offered,
     getFilterOptions datasets "departments" = "all" :: offered ∧ NoDup offered ∧
     ∀ value, value ∈ offered ↔
       value ≠ "" ∧ ∃ d, d ∈ revenue datasets ∧ RevenueData.department d = value) ∧
  (∃ offered,
     getFilterOptions datasets "industries" = "all" :: offered ∧ NoDup offered ∧
     ∀ value, value ∈ offered ↔
       value ≠ "" ∧ ∃ d, d ∈ customer datasets ∧ CustomerData.industry d = value) ∧
  (∃ offered,
     getFilterOptions datasets "regions" = "all" :: offered ∧ NoDup offered ∧
     ∀ value, value ∈ offered ↔
       revenue datasets ≠ [] ∧ value ≠ "" ∧
       ((∃ d, d ∈ revenue datasets ∧ RevenueData.region d = value) ∨
        (∃ d, d ∈ customer datasets ∧ CustomerData.region d = value))).
Proof.
  assert (Hnd : NoDup (departments (availableFilters datasets)) ∧
                NoDup (industries (availableFilters datasets)) ∧
                NoDup (regions (availableFilters datasets))).
  { rewrite availableFilters_eq. cbn [departments industries regions].
    repeat case_decide; repeat split;
      (apply NoDup_distinctTruthy || apply NoDup_nil_2). }
  destruct Hnd as (Hd & Hi & Hr).
  split; [ | split ].
  - eexists. split; [ reflexivity | ]. split; [ done | ]. apply elem_of_departments.
  - eexists. split; [ reflexivity | ]. split; [ done | ]. apply elem_of_industries.
  - eexists. split; [ reflexivity | ]. split; [ done | ]. apply elem_of_regions.
Qed.

(** Without revenue rows no region is offered, even when the customer
    rows have regions; departments and product lines have no option
    either, and an unknown filter type has no option at all. *)
Theorem getFilterOptions_without_revenue {number} (datasets : DashboardDatasets number) :
  revenue datasets = [] →
  getFilterOptions datasets "regions" = ["all"] ∧
  getFilterOptions datasets "departments" = ["all"] ∧
  getFilterOptions datasets "productLines" = ["all"] ∧
  getFilterOptions datasets "region" = [].
Proof.
  intros Hrev. unfold getFilterOptions.
  rewrite availableFilters_eq, Hrev. cbn [departments regions productLines length].
  repeat split; reflexivity.
Qed.

Lemma getFilterOptions_without_revenue_witness :
  getFilterOptions customersOnly "regions" = ["all"] ∧
  getFilterOptions customersOnly "departments" = ["all"] ∧
  getFilterOptions customersOnly "productLines" = ["all"] ∧
  getFilterOptions customersOnly "region" = [].
Proof.
  apply (getFilterOptions_without_revenue customersOnly). reflexivity.
Defined.

(** Every department offered as an option selects something: with the
    other selections at ["all"] and the time range at ["All Time"],
    choosing an offered department other than ["all"] leaves at least one
    revenue row in the filtered view. *)
Theorem offered_department_selects_rows {number} (datasets : DashboardDatasets number)
    (state : gmap string string) (value : string) :
  value ∈ getFilterOptions datasets "departments" →
  value ≠ "all" →
  state !! "selectedDepartment" = Some value →
  state !! "selectedRegion" = Some "all" →
  state !! "selectedTimeRange" = Some "All Time" →
  ∃ d, d ∈ revenue (filteredData datasets state) ∧ RevenueData.department d = value.
Proof.
  intros Hoffered Hne Hd Hr Ht.
  unfold getFilterOptions in Hoffered. rewrite decide_True in Hoffered by done.
  apply elem_of_cons in Hoffered as [?|Hoffered]; [ done | ].
  apply elem_of_departments in Hoffered as (_ & d & Hin & Hdep).
  exists d. split; [ | done ].
  rewrite filteredData_eq. cbn [revenue].
  rewrite decide_False by (intros H; by apply H).
  rewrite !list_elem_of_filter. split; [ by left | ]. split; [ | done ].
  right. by rewrite Hd, Hdep.
Qed.

Lemma offered_department_selects_rows_witness :
  ∃ d, d ∈ revenue (filteredData exampleDatasets
                      (<["selectedDepartment" := "sales"]> unfiltered)) ∧
       RevenueData.department d = "sales".
Proof.
  apply (offered_department_selects_rows exampleDatasets
           (<["selectedDepartment" := "sales"]> unfiltered) "sales").
  - vm_compute. apply list_elem_of_further, list_elem_of_further, list_elem_of_here.
  - discriminate.
  - vm_compute. reflexivity.
  - vm_compute. reflexivity.
  - vm_compute. reflexivity.
Defined.

(** The region cascade, seen in the view: after an update that sets the
    region only, to a value other than ["all"], the customer view is
    exactly the customers of that region, whatever industry was selected
    before. *)
Theorem region_update_customer_view {number} (datasets : DashboardDatasets number)
    (value : string) (source_ : option string) (clock : Clock) (st : Store) :
  value ≠ "all" →
  customer (filteredData datasets
              (dashboardState
                 (exec (updateDashboardState {["selectedRegion" := value]} source_ clock) st)))
  = filter (fun d => CustomerData.region d = value) (customer datasets).
Proof.
  intros Hne. unfold exec. rewrite updateDashboardState_eq. cbn [snd dashboardState].
  rewrite resolveDependencies_region, filteredData_eq. cbn [customer].
  set (state := _ ∪ dashboardState st).
  assert (Hr : state !! "selectedRegion" = Some value).
  { apply lookup_union_Some_l. by rewrite lookup_insert_ne, lookup_singleton_eq. }
  assert (Hi : state !! "selectedIndustry" = Some "all").
  { apply lookup_union_Some_l. by rewrite lookup_insert_eq. }
  rewrite (filter_selects_all state "selectedIndustry") by done.
  apply list_filter_iff. intros d. unfold selects. rewrite Hr. split.
  - intros [[= ?]|[= ?]]; congruence.
  - intros ->. by right.
Qed.

Lemma region_update_customer_view_witness :
  customer (filteredData exampleDatasets
              (dashboardState
                 (exec (updateDashboardState {["selectedRegion" := "Europe"]}
                          (Some "test") clock0) technologyChosen)))
  = filter (fun d => CustomerData.region d = "Europe") (customer exampleDatasets).
Proof.
  apply (region_update_customer_view exampleDatasets "Europe" (Some "test") clock0
           technologyChosen).
  discriminate.
Defined.
